(** * OneRoof command-line front end ([bin/__main__.py])

    A shallow embedding of the launcher: the command synthesizer
    [generate_nextflow_command], the run launcher [run_nextflow], the
    resume launcher [resume_nextflow] and the dispatcher [main], together
    with the parts of the Python runtime they call ([str.endswith],
    [str.strip], [str.split], [readline], [shlex.quote], [subprocess.run]).

    Modelling conventions.
    - A Python [str] is a list of Unicode code points ([N]).
    - The working directory is a store holding the text of [.nfresume]
      (or nothing when the file does not exist) and telling whether that
      file can be opened for writing.  Text goes to the file through
      UTF-8 on a POSIX host: a text with a lone surrogate, which is what
      [sys.argv] holds for a byte that is not UTF-8, cannot be written;
      any other text is read back as it was written.
    - Effects are threaded through a state-and-exception monad whose state
      also keeps the log of the system calls issued so far.
    - The child process is an oracle of the world: it maps an argument
      vector to "not found" or to an exit status. *)

From Stdlib Require Import List NArith ZArith Bool Ascii String Lia.
From Stdlib Require Import DecimalString Permutation.
Import ListNotations.
Open Scope string_scope.
Open Scope list_scope.

Set Implicit Arguments.

(** ** Python strings *)

Module PyStr.

Definition char := N.
Definition pystr := list char.

(** A literal of the source, as code points. *)
Definition lit (s : string) : pystr :=
  map N_of_ascii (list_ascii_of_string s).

Definition LF : char := 10%N.
Definition CR : char := 13%N.
Definition SPACE : char := 32%N.
Definition SQUOTE : char := 39%N.
Definition DQUOTE : char := 34%N.
Definition BACKSLASH : char := 92%N.

Fixpoint eqb (a b : pystr) : bool :=
  match a, b with
  | [], [] => true
  | x :: a', y :: b' => N.eqb x y && eqb a' b'
  | _, _ => false
  end.

(** [s.startswith(p)] *)
Fixpoint startswith (s p : pystr) {struct p} : bool :=
  match p, s with
  | [], _ => true
  | y :: p', x :: s' => N.eqb x y && startswith s' p'
  | _ :: _, [] => false
  end.

(** [s.endswith(p)] *)
Definition endswith (s p : pystr) : bool :=
  startswith (rev s) (rev p).

(** A code point that UTF-8 encodes: any code point of Unicode but a
    surrogate. *)
Definition utf8_char (c : char) : bool :=
  ((c <? 55296) || (57343 <? c) && (c <=? 1114111))%N.

(** [s.encode("utf8")] succeeds. *)
Definition encodable (s : pystr) : bool := forallb utf8_char s.

(** [str.isspace] on one code point (CPython's [_PyUnicode_IsWhitespace]). *)
Definition isspace (c : char) : bool :=
  ((9 <=? c) && (c <=? 13) || (28 <=? c) && (c <=? 32)
   || (c =? 133) || (c =? 160) || (c =? 5760)
   || (8192 <=? c) && (c <=? 8202)
   || (c =? 8232) || (c =? 8233) || (c =? 8239) || (c =? 8287)
   || (c =? 12288))%N.

Fixpoint lstrip (s : pystr) : pystr :=
  match s with
  | [] => []
  | c :: s' => if isspace c then lstrip s' else s
  end.

Definition rstrip (s : pystr) : pystr := rev (lstrip (rev s)).

(** [s.strip()] *)
Definition strip (s : pystr) : pystr := rstrip (lstrip s).

(** [sep.join(parts)] *)
Fixpoint join (sep : pystr) (parts : list pystr) : pystr :=
  match parts with
  | [] => []
  | [p] => p
  | p :: rest => p ++ sep ++ join sep rest
  end.

(** [s.replace(old, new)] for a one-character [old]. *)
Definition replace1 (old : char) (new : pystr) (s : pystr) : pystr :=
  flat_map (fun c => if N.eqb c old then new else [c]) s.

(** [str(n)] for an [int]. *)
Definition str_of_int (n : Z) : pystr :=
  lit (NilZero.string_of_int (Z.to_int n)).

End PyStr.
Import PyStr.


(** ** Exceptions and the result of a call *)

Inductive exn : Type :=
| AssertionError (msg : pystr)
| ValueError (msg : pystr)
| IndexError
| FileNotFoundError
| CalledProcessError (returncode : Z)
| UnicodeEncodeError
| OSError
| SystemExit (code : Z + pystr).

Inductive result (A : Type) : Type :=
| Ok (a : A)
| Raise (e : exn).
Arguments Ok {A} a.
Arguments Raise {A} e.

(** [s.split(sep)] with an explicit separator: an empty separator is
    rejected, otherwise [s] is cut at the successive occurrences of [sep],
    scanning from the left.  [skip] counts the characters of a separator
    that was just matched and is still to be dropped. *)
Fixpoint split_scan (sep : pystr) (skip : nat) (cur s : pystr) : list pystr :=
  match s with
  | [] => [cur]
  | c :: s' =>
      match skip with
      | S k => split_scan sep k cur s'
      | O =>
          if startswith s sep
          then cur :: split_scan sep (List.length sep - 1) [] s'
          else split_scan sep 0 (cur ++ [c]) s'
      end
  end.

Definition split (s sep : pystr) : result (list pystr) :=
  match sep with
  | [] => Raise (ValueError (lit "empty separator"))
  | _ :: _ => Ok (split_scan sep 0 [] s)
  end.

(** ** [shlex.quote] *)

Module Shlex.

(** [\w] under [re.ASCII]: letters, digits and the underscore. *)
Definition is_word (c : char) : bool :=
  ((48 <=? c) && (c <=? 57) || (65 <=? c) && (c <=? 90)
   || (97 <=? c) && (c <=? 122) || (c =? 95))%N.

(** The complement of [_find_unsafe]'s class [[^\w@%+=:,./-]]. *)
Definition is_safe (c : char) : bool :=
  is_word c || existsb (N.eqb c) (lit "@%+=:,./-").

(** The replacement of a single quote: ['] ["] ['] ["] [']. *)
Definition squote_escape : pystr :=
  [SQUOTE; DQUOTE; SQUOTE; DQUOTE; SQUOTE].

Definition quote (s : pystr) : pystr :=
  match s with
  | [] => [SQUOTE; SQUOTE]
  | _ :: _ =>
      if forallb is_safe s then s
      else [SQUOTE] ++ replace1 SQUOTE squote_escape s ++ [SQUOTE]
  end.

End Shlex.

(** ** Reading a command line back: POSIX shell words

    [shlex.quote] writes a value so that a POSIX shell takes it as one
    literal word.  [Shell.words] is the reference reader against which that
    is stated, for one simple command made of literal words: blanks
    separate words; inside single quotes every character is literal;
    inside double quotes a backslash protects the double quote, the
    backslash, the dollar and the backquote; outside quotes a backslash
    protects the next character.  A text that needs more of the shell than
    that (expansions, globbing, operators, an open quote) has no reading. *)

Module Shell.

Inductive qstate : Type := Bare | Single | Double.

Definition is_blank (c : char) : bool := ((c =? 32) || (c =? 9))%N.

(** Characters the shell would act upon when they stand unquoted. *)
Definition is_meta (c : char) : bool :=
  N.eqb c LF || existsb (N.eqb c) (lit "|&;<>()$`*?[]#~!{}").

Definition is_dq_escapable (c : char) : bool :=
  N.eqb c DQUOTE || N.eqb c BACKSLASH || existsb (N.eqb c) (lit "$`").

Definition word_of (cur : option pystr) : pystr :=
  match cur with None => [] | Some w => w end.

Definition push (cur : option pystr) (c : char) : option pystr :=
  Some (word_of cur ++ [c]).

Definition touch (cur : option pystr) : option pystr := Some (word_of cur).

Definition emit (cur : option pystr) (rest : option (list pystr))
  : option (list pystr) :=
  match cur with
  | None => rest
  | Some w => option_map (cons w) rest
  end.

Fixpoint scan (st : qstate) (cur : option pystr) (s : pystr)
  : option (list pystr) :=
  match s with
  | [] => match st with Bare => emit cur (Some []) | _ => None end
  | c :: s' =>
      match st with
      | Bare =>
          if is_blank c then emit cur (scan Bare None s')
          else if N.eqb c SQUOTE then scan Single (touch cur) s'
          else if N.eqb c DQUOTE then scan Double (touch cur) s'
          else if N.eqb c BACKSLASH then
            match s' with
            | [] => None
            | d :: s'' =>
                if N.eqb d LF then scan Bare cur s''
                else scan Bare (push cur d) s''
            end
          else if is_meta c then None
          else scan Bare (push cur c) s'
      | Single =>
          if N.eqb c SQUOTE then scan Bare cur s'
          else scan Single (push cur c) s'
      | Double =>
          if N.eqb c DQUOTE then scan Bare cur s'
          else if N.eqb c BACKSLASH then
            match s' with
            | [] => None
            | d :: s'' =>
                if is_dq_escapable d then scan Double (push cur d) s''
                else if N.eqb d LF then scan Double cur s''
                else scan Double (push (push cur c) d) s''
            end
          else if existsb (N.eqb c) (lit "$`") then None
          else scan Double (push cur c) s'
      end
  end.

(** The words of a command line. *)
Definition words (s : pystr) : option (list pystr) := scan Bare None s.

(** The text a single quoted word stands for. *)
Definition unquote (w : pystr) : option pystr :=
  match words w with
  | Some [t] => Some t
  | _ => None
  end.

End Shell.

(** ** Option values and the namespace *)

(** The profiles accepted by [-profile] (its [choices]). *)
Inductive profile : Type :=
| Standard | Docker | Singularity | Apptainer | Containerless.

(** The values an attribute of the parsed namespace can hold.  A float is
    kept as the text [str] gives for it: the program does nothing else
    with a float. *)
Inductive value : Type :=
| VNone
| VBool (b : bool)
| VStr (s : pystr)
| VInt (n : Z)
| VFloat (repr : pystr)
| VProfiles (l : list profile).

(** [vars(args)]: the attributes in the order they were set. *)
Definition Namespace := list (pystr * value).

Definition profile_name (p : profile) : pystr :=
  match p with
  | Standard => lit "standard"
  | Docker => lit "docker"
  | Singularity => lit "singularity"
  | Apptainer => lit "apptainer"
  | Containerless => lit "containerless"
  end.

(** [str(value)] *)
Definition py_str (v : value) : pystr :=
  match v with
  | VNone => lit "None"
  | VBool true => lit "True"
  | VBool false => lit "False"
  | VStr s => s
  | VInt n => str_of_int n
  | VFloat repr => repr
  | VProfiles l =>
      lit "[" ++ join (lit ", ")
                   (map (fun p => [SQUOTE] ++ profile_name p ++ [SQUOTE]) l)
      ++ lit "]"
  end.

Definition is_none (v : value) : bool :=
  match v with VNone => true | _ => false end.

(** [isinstance(value, bool)] *)
Definition isinstance_bool (v : value) : bool :=
  match v with VBool _ => true | _ => false end.

(** Truth value of a [bool]. *)
Definition truthy (v : value) : bool :=
  match v with VBool b => b | _ => false end.

(** ** [generate_nextflow_command] *)

Definition generate_nextflow_command (args : Namespace) : pystr :=
  let args_dict :=
    filter (fun kv => negb (eqb (fst kv) (lit "subcommands"))) args in
  let nextflow_params :=
    fold_left
      (fun (nextflow_params : list pystr) (kv : pystr * value) =>
         let (arg, value) := kv in
         if negb (is_none value) then
           if isinstance_bool value then
             if truthy value
             then nextflow_params ++ [lit "--" ++ arg]
             else nextflow_params
           else
             nextflow_params
               ++ [lit "--" ++ arg ++ lit " " ++ Shlex.quote (py_str value)]
         else nextflow_params)
      args_dict [] in
  let params_str := join (lit " ") nextflow_params in
  lit "nextflow run . " ++ params_str.

(** ** The world: the resume file, the child process, the system calls *)

Inductive proc_result : Type :=
| NotFound
| Exited (returncode : Z).

Inductive syscall : Type :=
| SysExists
| SysOpenW
| SysOpenR
| SysWrite (data : pystr)
| SysClose
| SysSpawn (argv : list pystr).

Record World : Type := mkWorld {
  nfresume : option pystr;
  writable : bool;
  child : list pystr -> proc_result;
  log : list syscall
}.

Definition M (A : Type) : Type := World -> result A * World.

Definition ret {A} (a : A) : M A := fun w => (Ok a, w).

Definition raise {A} (e : exn) : M A := fun w => (Raise e, w).

Definition bind {A B} (m : M A) (k : A -> M B) : M B :=
  fun w =>
    match m w with
    | (Ok a, w') => k a w'
    | (Raise e, w') => (Raise e, w')
    end.

Notation "x <- m ;; k" := (bind m (fun x => k))
  (at level 61, m at next level, right associativity).
Notation "m ;; k" := (bind m (fun _ => k))
  (at level 61, right associativity).

Definition lift {A} (r : result A) : M A := fun w => (r, w).

Definition emit_call (c : syscall) (w : World) : World :=
  mkWorld (nfresume w) (writable w) (child w) (log w ++ [c]).

Definition set_file (f : option pystr) (w : World) : World :=
  mkWorld f (writable w) (child w) (log w).

(** [assert cond, msg] *)
Definition assert_ (cond : bool) (msg : pystr) : M unit :=
  if cond then ret tt else raise (AssertionError msg).

(** [Path(".nfresume").exists()] *)
Definition path_exists : M bool :=
  fun w =>
    (Ok (match nfresume w with Some _ => true | None => false end),
     emit_call SysExists w).

(** [open("w")] creates the file or truncates it, or raises when the
    file cannot be opened for writing. *)
Definition open_w : M unit :=
  fun w =>
    if writable w
    then (Ok tt, emit_call SysOpenW (set_file (Some []) w))
    else (Raise OSError, emit_call SysOpenW w).

(** [handle.write(data)] encodes [data] and puts it after what the handle
    wrote so far; when [data] cannot be encoded it raises and nothing is
    written. *)
Definition write (data : pystr) : M unit :=
  fun w =>
    if encodable data
    then
      (Ok tt,
       emit_call (SysWrite data)
         (set_file (Some (match nfresume w with
                          | Some content => content ++ data
                          | None => data
                          end)) w))
    else (Raise UnicodeEncodeError, w).

Definition close : M unit := fun w => (Ok tt, emit_call SysClose w).

(** [with Path(".nfresume").open("w") as handle: body]: the handle is
    closed however the body is left. *)
Definition with_open_w {A} (body : M A) : M A :=
  fun w =>
    match open_w w with
    | (Ok _, w1) => let (r, w2) := body w1 in (r, snd (close w2))
    | (Raise e, w1) => (Raise e, w1)
    end.

(** [handle.readline()] on a text file read with universal newlines: the
    characters up to the first line end, which is given back as a line
    feed whether the file has LF, CR or CR LF. *)
Fixpoint readline (content : pystr) : pystr :=
  match content with
  | [] => []
  | c :: rest =>
      if N.eqb c LF || N.eqb c CR then [LF] else c :: readline rest
  end.

(** [with Path(".nfresume").open("r") as handle: body handle] *)
Definition with_open_r {A} (body : pystr -> M A) : M A :=
  fun w =>
    match nfresume w with
    | None => (Raise FileNotFoundError, emit_call SysOpenR w)
    | Some content =>
        let (r, w1) := body content (emit_call SysOpenR w) in
        (r, snd (close w1))
    end.

(** [subprocess.run(argv, check=True)]: blocks until the child is done. *)
Definition subprocess_run_check (argv : list pystr) : M unit :=
  match argv with
  | [] => raise IndexError
  | _ :: _ =>
      fun w =>
        let w' := emit_call (SysSpawn argv) w in
        match child w argv with
        | NotFound => (Raise FileNotFoundError, w')
        | Exited rc =>
            if Z.eqb rc 0 then (Ok tt, w')
            else (Raise (CalledProcessError rc), w')
        end
  end.

(** [sys.exit(msg)] *)
Definition sys_exit {A} (msg : pystr) : M A := raise (SystemExit (inr msg)).

(** ** [run_nextflow] *)

(** How the [with] block of [run_nextflow] is left. *)
Inductive flow : Type := Returned | FellThrough.

(** The [with] block of [run_nextflow] (lines 323-327): the write to the
    resume file, called [record] in the specification. *)
Definition record (run_command : pystr) : M flow :=
  with_open_w
    (if endswith run_command (lit "-resume")
     then write run_command ;; ret Returned
     else write (run_command ++ lit " -resume") ;; ret FellThrough).

Definition run_nextflow (run_command : pystr) : M unit :=
  left <- record run_command ;;
  match left with
  | Returned => ret tt
  | FellThrough =>
      split_command <- lift (split run_command (lit "")) ;;
      subprocess_run_check split_command ;;
      ret tt
  end.

(** ** [resume_nextflow] *)

(** The first half of [resume_nextflow] (lines 354-360): the read of the
    resume file, called [load] in the specification. *)
Definition load : M pystr :=
  present <- path_exists ;;
  assert_ present
    (lit "Previous run not detected. Make sure you start with `oneroof run`") ;;
  with_open_r (fun content => ret (strip (readline content))).

Definition resume_nextflow : M unit :=
  run_command <- load ;;
  run_nextflow run_command.

(** ** [parse_command_line_args]

    The parser is declared with [argparse]; what is modelled here is the
    outcome of [parse_args] once [argparse] has cut the command line:
    whether it met [-h] or [--help] (which every parser and sub-parser
    takes) before anything it rejects, the chosen subcommand, and the
    options given to it, with their values already converted by the
    declared [type].  Abbreviated option names and [--name=value] are
    spellings of the same options. *)

Inductive kind : Type :=
| KStr          (* type=str *)
| KInt          (* type=int *)
| KFloat        (* type=float *)
| KStoreTrue    (* action="store_true" *)
| KCount        (* action="count", default=0 *)
| KProfiles.    (* nargs="+" with choices *)

Record argument : Type := mkArg {
  dest : pystr;
  akind : kind;
  required : bool
}.

Definition opt (name : string) (k : kind) : argument :=
  mkArg (lit name) k false.

Definition resume_arguments : list argument :=
  [ opt "verbose" KCount ].

Definition run_arguments : list argument :=
  [ opt "primer_bed" KStr;
    opt "fwd_suffix" KStr;
    opt "rev_suffix" KStr;
    mkArg (lit "refseq") KStr true;
    opt "ref_gbk" KStr;
    opt "remote_pod5_location" KStr;
    opt "file_watcher_config" KStr;
    opt "pod5_staging" KStr;
    opt "pod5_dir" KStr;
    opt "precalled_staging" KStr;
    opt "prepped_data" KStr;
    opt "illumina_fastq_dir" KStr;
    opt "model" KStr;
    opt "model_cache" KStr;
    opt "kit" KStr;
    opt "pod5_batch_size" KInt;
    opt "basecall_max" KInt;
    opt "max_len" KInt;
    opt "min_len" KInt;
    opt "min_qual" KInt;
    opt "secondary" KStoreTrue;
    opt "max_mismatch" KInt;
    opt "downsample_to" KInt;
    opt "min_consensus_freq" KFloat;
    opt "min_haplo_reads" KInt;
    opt "snpeff_cache" KStr;
    opt "min_depth_coverage" KInt;
    opt "nextclade_dataset" KStr;
    opt "nextclade_cache" KStr;
    opt "results" KStr;
    opt "cleanup" KStoreTrue;
    opt "resume" KStoreTrue;
    opt "snpEff_config" KStr;
    opt "profile" KProfiles ].

(** The subcommands, in the order they are added to the parser. *)
Definition subparsers : list (pystr * list argument) :=
  [ (lit "env", []);
    (lit "validate", []);
    (lit "resume", resume_arguments);
    (lit "run", run_arguments) ].

(** The value an attribute has when its option is not given. *)
Definition default_of (k : kind) : value :=
  match k with
  | KStoreTrue => VBool false
  | KCount => VInt 0
  | _ => VNone
  end.

(** The values an option of kind [k] can be given. *)
Definition conforms (k : kind) (v : value) : bool :=
  match k, v with
  | KStr, VStr _ => true
  | KInt, VInt _ => true
  | KFloat, VFloat _ => true
  | KStoreTrue, VBool true => true
  | KCount, VInt n => (0 <? n)%Z
  | KProfiles, VProfiles (_ :: _) => true
  | _, _ => false
  end.

(** A command line as [argparse] has cut it. *)
Record command_line : Type := mkArgv {
  help : bool;
  subcommand : option pystr;
  given : list (pystr * value)
}.

(** A command line without [-h] or [--help]. *)
Definition mkCommandLine (subcommand : option pystr)
    (given : list (pystr * value)) : command_line :=
  mkArgv false subcommand given.

(** The help action: the help text and exit status 0. *)
Definition help_exit : exn := SystemExit (inl 0%Z).

(** [parser.error]: the usage message and exit status 2. *)
Definition usage_error : exn := SystemExit (inl 2%Z).

(** The last value given to [name] wins. *)
Definition given_value (name : pystr) (given : list (pystr * value))
  : option value :=
  option_map snd (find (fun kv => eqb (fst kv) name) (rev given)).

Definition parse_options (table : list argument)
    (given : list (pystr * value)) : result Namespace :=
  if forallb
       (fun kv =>
          existsb (fun a => eqb (dest a) (fst kv) && conforms (akind a) (snd kv))
            table)
       given
     && forallb
          (fun a =>
             negb (required a)
             || existsb (fun kv => eqb (fst kv) (dest a)) given)
          table
  then
    Ok (map (fun a =>
               (dest a,
                match given_value (dest a) given with
                | Some v => v
                | None => default_of (akind a)
                end))
          table)
  else Raise usage_error.

Definition parse_command_line_args (cl : command_line) : result Namespace :=
  if help cl then Raise help_exit
  else
    match subcommand cl with
    | None =>
        match given cl with
        | [] => Ok [(lit "subcommands", VNone)]
        | _ :: _ => Raise usage_error
        end
    | Some name =>
        match find (fun sp => eqb (fst sp) name) subparsers with
        | None => Raise usage_error
        | Some (_, table) =>
            match parse_options table (given cl) with
            | Ok ns => Ok ((lit "subcommands", VStr name) :: ns)
            | Raise e => Raise e
            end
        end
    end.

(** ** [main] *)

(** A literal pattern of [match]: the subject equals the literal. *)
Definition matches (subject : value) (literal : pystr) : bool :=
  match subject with
  | VStr s => eqb s literal
  | _ => false
  end.

(** [chosen_subcommand[0]] *)
Definition first {A} (l : list A) : result A :=
  match l with
  | [] => Raise IndexError
  | x :: _ => Ok x
  end.

(** [[v for k, v in vars(args).items() if k == "subcommands"]] *)
Definition chosen_subcommand_of (args : Namespace) : list value :=
  map snd (filter (fun kv => eqb (fst kv) (lit "subcommands")) args).

Definition main (cl : command_line) : M unit :=
  args <- lift (parse_command_line_args cl) ;;
  let chosen_subcommand := chosen_subcommand_of args in
  assert_ (Nat.eqb (List.length chosen_subcommand) 1)
    (lit "Invalid state registered in the form of requesting more than one or zero sub") ;;
  subcommand <- lift (first chosen_subcommand) ;;
  if matches subcommand (lit "run") then
    run_nextflow (generate_nextflow_command args)
  else if matches subcommand (lit "resume") then
    resume_nextflow
  else
    sys_exit (lit "The subcommand " ++ py_str subcommand
              ++ lit " is not yet supported but will be soon!").

(** The exit status of the interpreter for a given end of [main]. *)
Definition exit_status (r : result unit) : Z :=
  match r with
  | Ok _ => 0
  | Raise (SystemExit (inl n)) => n
  | Raise _ => 1
  end.

(** The spawn calls of a log. *)
Definition spawns (l : list syscall) : list (list pystr) :=
  flat_map (fun c => match c with SysSpawn argv => [argv] | _ => [] end) l.



(** A world with no resume file, where the file can be created, and a
    child that ends with status [rc]. *)
Definition fresh_world (rc : Z) : World :=
  mkWorld None true (fun _ => Exited rc) [].

(** A world that holds [content] in the resume file, which can be
    written. *)
Definition world_with (content : pystr) : World :=
  mkWorld (Some content) true (fun _ => Exited 0) [].


(** ** Reference notions the statements are written with *)

(** What the specification says [record] leaves in the resume file. *)
Definition recorded (command : pystr) : pystr :=
  if endswith command (lit "-resume") then command
  else command ++ lit " -resume".

Definition is_line_end (c : char) : bool := N.eqb c LF || N.eqb c CR.

(** [line] is the first line of [content]: it has no line end, and what
    follows it in [content] is nothing or starts with a line end. *)
Definition first_line_of (content line : pystr) : Prop :=
  exists rest,
    content = line ++ rest
    /\ forallb (fun c => negb (is_line_end c)) line = true
    /\ (rest = [] \/ exists c rest', rest = c :: rest' /\ is_line_end c = true).

(** [t] is [s] without the white space around it. *)
Definition trimmed_of (s t : pystr) : Prop :=
  exists l r,
    s = l ++ t ++ r
    /\ forallb isspace l = true
    /\ forallb isspace r = true
    /\ (forall c, hd_error t = Some c -> isspace c = false)
    /\ (forall c, hd_error (rev t) = Some c -> isspace c = false).

(** The fragments one attribute adds to [nextflow_params]. *)
Definition fragment_of (kv : pystr * value) : list pystr :=
  match snd kv with
  | VNone => []
  | VBool true => [lit "--" ++ fst kv]
  | VBool false => []
  | v => [lit "--" ++ fst kv ++ lit " " ++ Shlex.quote (py_str v)]
  end.

(** The words one attribute stands for on the command line of the child. *)
Definition tokens_of (kv : pystr * value) : list pystr :=
  match snd kv with
  | VNone => []
  | VBool true => [lit "--" ++ fst kv]
  | VBool false => []
  | v => [lit "--" ++ fst kv; py_str v]
  end.

(** The attributes that are options: all but the subcommand selector. *)
Definition options_of (args : Namespace) : Namespace :=
  filter (fun kv => negb (eqb (fst kv) (lit "subcommands"))) args.

(** The words of the fixed head of the command. *)
Definition header_tokens : list pystr := [lit "nextflow"; lit "run"; lit "."].

(** The fragments of a namespace, in the order of its attributes. *)
Definition fragments (args : Namespace) : list pystr :=
  flat_map fragment_of (options_of args).

(** The words a namespace stands for on the command line of the child. *)
Definition tokens (args : Namespace) : list pystr :=
  flat_map tokens_of (options_of args).

(** Option names are made of characters that need no quoting. *)
Definition plain_names (args : Namespace) : bool :=
  forallb (fun kv => forallb Shlex.is_safe (fst kv)) args.

(** The world once [data] was put in the resume file by one
    open-write-close. *)
Definition after_record (data : pystr) (w : World) : World :=
  mkWorld (Some data) (writable w) (child w)
    (log w ++ [SysOpenW; SysWrite data; SysClose]).

(** The world once the resume file was opened for writing and closed
    with nothing written: the file is there and empty. *)
Definition truncated (w : World) : World :=
  mkWorld (Some []) (writable w) (child w) (log w ++ [SysOpenW; SysClose]).

(** The world once the open of the resume file was refused. *)
Definition refused (w : World) : World := emit_call SysOpenW w.

(** What [record] and [run_nextflow] leave of the world for a command:
    the record, an empty file when the command cannot be encoded, the
    world as it was when the file cannot be opened. *)
Definition record_attempt (command : pystr) (w : World) : World :=
  if writable w then
    if encodable command then after_record (recorded command) w
    else truncated w
  else refused w.

(** A lone surrogate, as [sys.argv] gives for the byte [0xFF]. *)
Definition surrogate : char := 56575%N.

(** [oneroof run --refseq X] where [X] is the one byte [0xFF]. *)
Definition cl_surrogate : command_line :=
  mkCommandLine (Some (lit "run")) [(lit "refseq", VStr [surrogate])].

(** The command synthesized for [cl_surrogate]. *)
Definition cmd_surrogate : pystr :=
  lit "nextflow run . --refseq '" ++ [surrogate] ++ lit "'".

(** The error of [str.split] on an empty separator. *)
Definition empty_separator : exn := ValueError (lit "empty separator").

(** The message of the assertion of [resume_nextflow]. *)
Definition missing_prior_run : exn :=
  AssertionError
    (lit "Previous run not detected. Make sure you start with `oneroof run`").

(** The command synthesized for a command line, when it parses. *)
Definition synthesized (cl : command_line) : option pystr :=
  match parse_command_line_args cl with
  | Ok args => Some (generate_nextflow_command args)
  | Raise _ => None
  end.

(** [oneroof run --refseq ref.fasta] *)
Definition cl_plain : command_line :=
  mkCommandLine (Some (lit "run")) [(lit "refseq", VStr (lit "ref.fasta"))].

(** [oneroof run --refseq X] where [X] is the two lines [a] and [b]. *)
Definition cl_two_lines : command_line :=
  mkCommandLine (Some (lit "run"))
    [(lit "refseq", VStr (lit "a" ++ [LF] ++ lit "b"))].

(** The command synthesized for [cl_two_lines]: the value is quoted, the
    line feed stays inside the quotes. *)
Definition cmd_two_lines : pystr :=
  lit "nextflow run . --refseq 'a" ++ [LF] ++ lit "b'".

(** The world left by [oneroof run --refseq X] started where there is no
    resume file. *)
Definition world_two_lines : World := snd (main cl_two_lines (fresh_world 0)).

(** The message of [main] for a subcommand it does not support. *)
Definition not_yet_supported (name : string) : pystr :=
  lit "The subcommand " ++ lit name ++ lit " is not yet supported but will be soon!".


(** [oneroof run] with the given options. *)
Definition run_with (opts : list (pystr * value)) : command_line :=
  mkCommandLine (Some (lit "run")) opts.

(** [oneroof resume] with the given options. *)
Definition resume_with (opts : list (pystr * value)) : command_line :=
  mkCommandLine (Some (lit "resume")) opts.

(** The value of the [subcommands] attribute for a command line. *)
Definition selector_of (cl : command_line) : value :=
  match subcommand cl with
  | None => VNone
  | Some name => VStr name
  end.

(** * Properties *)

(** ** Strings *)

Section StringFacts.

Lemma eqb_eq (a b : pystr) : eqb a b = true <-> a = b.
Proof.
  revert b; induction a as [|x a IH]; intros [|y b]; simpl;
    try (split; [discriminate | congruence]); try tauto.
  rewrite andb_true_iff, N.eqb_eq, IH.
  split; [intros [-> ->]; reflexivity | intros H; inversion H; auto].
Qed.

Lemma eqb_refl (a : pystr) : eqb a a = true.
Proof. apply eqb_eq; reflexivity. Qed.

Lemma startswith_app (p s : pystr) : startswith (p ++ s) p = true.
Proof.
  induction p as [|x p IH]; simpl; [reflexivity|].
  now rewrite N.eqb_refl, IH.
Qed.

Lemma startswith_inv (s p : pystr) :
  startswith s p = true -> exists t, s = p ++ t.
Proof.
  revert s; induction p as [|y p IH]; intros s H; simpl in *.
  - exists s; reflexivity.
  - destruct s as [|x s]; [discriminate|].
    apply andb_true_iff in H as [Hxy Hs].
    apply N.eqb_eq in Hxy; subst y.
    destruct (IH _ Hs) as [t ->]. exists t; reflexivity.
Qed.

Lemma endswith_app (a p : pystr) : endswith (a ++ p) p = true.
Proof. unfold endswith. rewrite rev_app_distr. apply startswith_app. Qed.

Lemma endswith_inv (s p : pystr) :
  endswith s p = true -> exists a, s = a ++ p.
Proof.
  unfold endswith; intros H.
  destruct (startswith_inv _ _ H) as [t Ht].
  exists (rev t).
  rewrite <- (rev_involutive s), Ht, rev_app_distr, rev_involutive.
  reflexivity.
Qed.

Lemma recorded_endswith (c : pystr) :
  endswith (recorded c) (lit "-resume") = true.
Proof.
  unfold recorded.
  destruct (endswith c (lit "-resume")) eqn:E; [exact E|].
  change (lit " -resume") with ([SPACE] ++ lit "-resume").
  rewrite app_assoc. apply endswith_app.
Qed.

Lemma lstrip_split (s : pystr) :
  exists l, s = l ++ lstrip s /\ forallb isspace l = true.
Proof.
  induction s as [|c s [l [E Hl]]]; simpl.
  - exists []; auto.
  - destruct (isspace c) eqn:Hc.
    + exists (c :: l); simpl. rewrite Hc, Hl. split; [congruence | reflexivity].
    + exists []; auto.
Qed.

Lemma lstrip_head (s : pystr) (c : char) :
  hd_error (lstrip s) = Some c -> isspace c = false.
Proof.
  induction s as [|x s IH]; simpl; [discriminate|].
  destruct (isspace x) eqn:Hx; [exact IH|].
  simpl; intros H; inversion H; subst; exact Hx.
Qed.

Lemma lstrip_fixed (s : pystr) :
  (forall c, hd_error s = Some c -> isspace c = false) -> lstrip s = s.
Proof.
  destruct s as [|x s]; simpl; [reflexivity|].
  intros H. now rewrite (H x eq_refl).
Qed.

Lemma lstrip_spaces (l s : pystr) :
  forallb isspace l = true -> lstrip (l ++ s) = lstrip s.
Proof.
  induction l as [|x l IH]; simpl; [reflexivity|].
  intros H; apply andb_true_iff in H as [-> Hl]; auto.
Qed.

(** Stripping on the left leaves a tail that starts with a visible
    character in place. *)
Lemma lstrip_keeps_tail (a p : pystr) (c : char) :
  hd_error p = Some c -> isspace c = false ->
  exists a', lstrip (a ++ p) = a' ++ p /\ exists l, a = l ++ a'.
Proof.
  intros Hp Hc.
  induction a as [|x a [a' [E [l El]]]]; simpl.
  - exists []; split; [apply lstrip_fixed|exists []; reflexivity].
    intros d Hd; simpl in Hd; congruence.
  - destruct (isspace x).
    + exists a'; split; [exact E|]. exists (x :: l); simpl; congruence.
    + exists (x :: a); split; [reflexivity|exists []; reflexivity].
Qed.

Lemma rstrip_split (s : pystr) :
  exists r, s = rstrip s ++ r /\ forallb isspace r = true.
Proof.
  unfold rstrip.
  destruct (lstrip_split (rev s)) as [l [E Hl]].
  exists (rev l); split.
  - rewrite <- rev_app_distr, <- E, rev_involutive. reflexivity.
  - rewrite forallb_forall in *. intros x Hx. apply Hl, in_rev, Hx.
Qed.

Lemma rstrip_last (s : pystr) (c : char) :
  hd_error (rev (rstrip s)) = Some c -> isspace c = false.
Proof. unfold rstrip. rewrite rev_involutive. apply lstrip_head. Qed.

Lemma rstrip_fixed (s : pystr) :
  (forall c, hd_error (rev s) = Some c -> isspace c = false) -> rstrip s = s.
Proof.
  intros H. unfold rstrip. rewrite (lstrip_fixed _ H). apply rev_involutive.
Qed.

Lemma rstrip_head (s : pystr) (c : char) :
  isspace c = false -> hd_error s = Some c -> hd_error (rstrip s) = Some c.
Proof.
  intros Hc Hs.
  destruct (rstrip_split s) as [r [E Hr]].
  destruct (rstrip s) as [|y t] eqn:Et.
  - simpl in E; subst r. destruct s as [|x s]; [discriminate|].
    simpl in Hs; inversion Hs; subst x.
    simpl in Hr. rewrite Hc in Hr. discriminate.
  - rewrite E in Hs. simpl in *. exact Hs.
Qed.

(** [strip] gives a trimmed form of its argument. *)
Lemma strip_trimmed (s : pystr) : trimmed_of s (strip s).
Proof.
  unfold trimmed_of, strip.
  destruct (lstrip_split s) as [l [El Hl]].
  destruct (rstrip_split (lstrip s)) as [r [Er Hr]].
  exists l, r. repeat split; auto.
  - rewrite <- Er. exact El.
  - intros c Hc.
    destruct (isspace c) eqn:Hsp; [|reflexivity].
    exfalso.
    destruct (rstrip (lstrip s)) as [|y t] eqn:Et; [discriminate|].
    simpl in Hc; inversion Hc; subst y.
    assert (Hh : hd_error (lstrip s) = Some c) by (rewrite Er; reflexivity).
    apply lstrip_head in Hh. congruence.
  - apply rstrip_last.
Qed.

(** A text that starts and ends with a visible character is its own
    stripped form. *)
Lemma strip_fixed (s : pystr) :
  (forall c, hd_error s = Some c -> isspace c = false) ->
  (forall c, hd_error (rev s) = Some c -> isspace c = false) ->
  strip s = s.
Proof.
  intros H1 H2. unfold strip. rewrite (lstrip_fixed _ H1). now apply rstrip_fixed.
Qed.

(** Stripping leaves a tail in place when the tail starts and ends with a
    visible character. *)
Lemma strip_keeps_tail (a p : pystr) (c d : char) :
  hd_error p = Some c -> isspace c = false ->
  hd_error (rev p) = Some d -> isspace d = false ->
  exists a', strip (a ++ p) = a' ++ p.
Proof.
  intros Hc Hc' Hd Hd'.
  destruct (lstrip_keeps_tail a p Hc Hc') as [a' [E _]].
  exists a'. unfold strip. rewrite E. apply rstrip_fixed.
  intros x Hx. rewrite rev_app_distr in Hx.
  destruct (rev p) as [|y t]; [discriminate|].
  simpl in *. congruence.
Qed.

Lemma readline_no_line_end (s : pystr) :
  forallb (fun c => negb (is_line_end c)) s = true -> readline s = s.
Proof.
  induction s as [|c s IH]; simpl; [reflexivity|].
  intros H; apply andb_true_iff in H as [Hc Hs].
  unfold is_line_end in Hc. apply negb_true_iff in Hc. rewrite Hc.
  now rewrite IH.
Qed.

(** [readline] gives the first line, followed by a line feed when the
    content goes on. *)
Lemma readline_first_line (content : pystr) :
  exists line,
    first_line_of content line
    /\ (readline content = line \/ readline content = line ++ [LF]).
Proof.
  induction content as [|c s [line [[rest [E [Hl Hr]]] Hread]]]; simpl.
  - exists []; split; [|left; reflexivity].
    exists []; repeat split; auto.
  - destruct (N.eqb c LF || N.eqb c CR) eqn:Hc.
    + exists []; split; [|right; reflexivity].
      exists (c :: s); repeat split; auto.
      right; exists c, s; split; [reflexivity | exact Hc].
    + exists (c :: line); split.
      * exists rest; repeat split; auto.
        -- simpl; congruence.
        -- simpl. unfold is_line_end at 1. rewrite Hc. exact Hl.
      * destruct Hread as [-> | ->]; [left | right]; reflexivity.
Qed.

Lemma first_line_unique (content l1 l2 : pystr) :
  first_line_of content l1 -> first_line_of content l2 -> l1 = l2.
Proof.
  revert l1 l2; induction content as [|c s IH];
    intros l1 l2 [r1 [E1 [H1 T1]]] [r2 [E2 [H2 T2]]].
  - destruct l1, l2; try discriminate; reflexivity.
  - destruct l1 as [|x1 l1], l2 as [|x2 l2]; simpl in *.
    + reflexivity.
    + exfalso. inversion E2; subst x2.
      destruct T1 as [-> | [c' [r' [-> Hc']]]]; [discriminate|].
      inversion E1; subst c'.
      apply andb_true_iff in H2 as [H2 _]. rewrite Hc' in H2. discriminate.
    + exfalso. inversion E1; subst x1.
      destruct T2 as [-> | [c' [r' [-> Hc']]]]; [discriminate|].
      inversion E2; subst c'.
      apply andb_true_iff in H1 as [H1 _]. rewrite Hc' in H1. discriminate.
    + inversion E1; inversion E2; subst.
      apply andb_true_iff in H1 as [_ H1]. apply andb_true_iff in H2 as [_ H2].
      f_equal. apply IH; [exists r1 | exists r2]; auto.
Qed.

Lemma strip_line_feed (s : pystr) : strip (s ++ [LF]) = strip s.
Proof.
  unfold strip.
  destruct (lstrip_split s) as [l [E Hl]].
  destruct (lstrip s) as [|x t] eqn:Els.
  - rewrite app_nil_r in E; subst l.
    rewrite (lstrip_spaces s [LF] Hl). reflexivity.
  - assert (Hx : isspace x = false) by (apply (lstrip_head s); rewrite Els; reflexivity).
    assert (H : lstrip (s ++ [LF]) = (x :: t) ++ [LF]).
    { rewrite E at 1. rewrite <- app_assoc, (lstrip_spaces _ _ Hl).
      simpl. now rewrite Hx. }
    rewrite H. unfold rstrip. rewrite rev_app_distr. reflexivity.
Qed.

End StringFacts.

(** ** The resume file *)

Section ResumeStore.

Lemma encodable_app (a b : pystr) :
  encodable (a ++ b) = encodable a && encodable b.
Proof. apply forallb_app. Qed.

Lemma encodable_recorded (c : pystr) : encodable (recorded c) = encodable c.
Proof.
  unfold recorded. destruct (endswith c (lit "-resume")); [reflexivity|].
  rewrite encodable_app. change (encodable (lit " -resume")) with true.
  apply andb_true_r.
Qed.

Lemma record_eq (c : pystr) (w : World) :
  record c w =
  (if writable w then
     if encodable c
     then Ok (if endswith c (lit "-resume") then Returned else FellThrough)
     else Raise UnicodeEncodeError
   else Raise OSError,
   record_attempt c w).
Proof.
  pose proof (encodable_recorded c) as He.
  unfold record, recorded, record_attempt, with_open_w, open_w, after_record,
    truncated, refused in *.
  destruct (writable w) eqn:Hw; [|reflexivity].
  destruct (endswith c (lit "-resume")) eqn:Hend;
    unfold bind, write, ret, close, emit_call, set_file; cbn [nfresume];
    try rewrite He; destruct (encodable c);
    cbn [fst snd log nfresume child writable app];
    rewrite <- ?app_assoc; rewrite ?Hw; unfold recorded; rewrite ?Hend;
    reflexivity.
Qed.

Lemma run_nextflow_eq (c : pystr) (w : World) :
  run_nextflow c w =
  (if writable w then
     if encodable c
     then if endswith c (lit "-resume") then Ok tt else Raise empty_separator
     else Raise UnicodeEncodeError
   else Raise OSError,
   record_attempt c w).
Proof.
  unfold run_nextflow, bind. rewrite record_eq.
  destruct (writable w); [|reflexivity].
  destruct (encodable c); [|reflexivity].
  destruct (endswith c (lit "-resume")); reflexivity.
Qed.

Lemma record_attempt_ok (c : pystr) (w : World) :
  writable w = true -> encodable c = true ->
  record_attempt c w = after_record (recorded c) w.
Proof. intros Hw He. unfold record_attempt. now rewrite Hw, He. Qed.

(** Where the file can be written and the command encoded. *)
Lemma record_ok (c : pystr) (w : World) :
  writable w = true -> encodable c = true ->
  record c w =
  (Ok (if endswith c (lit "-resume") then Returned else FellThrough),
   after_record (recorded c) w).
Proof.
  intros Hw He. rewrite record_eq, record_attempt_ok by assumption.
  now rewrite Hw, He.
Qed.

Lemma run_nextflow_ok (c : pystr) (w : World) :
  writable w = true -> encodable c = true ->
  run_nextflow c w =
  (if endswith c (lit "-resume") then Ok tt else Raise empty_separator,
   after_record (recorded c) w).
Proof.
  intros Hw He. rewrite run_nextflow_eq, record_attempt_ok by assumption.
  now rewrite Hw, He.
Qed.

Lemma load_eq (w : World) :
  load w =
  match nfresume w with
  | None => (Raise missing_prior_run, emit_call SysExists w)
  | Some content =>
      (Ok (strip (readline content)),
       mkWorld (Some content) (writable w) (child w)
         (log w ++ [SysExists; SysOpenR; SysClose]))
  end.
Proof.
  unfold load, bind, path_exists, with_open_r, assert_, ret, raise, close, emit_call.
  destruct (nfresume w) eqn:E; simpl; [|reflexivity].
  rewrite <- !app_assoc. reflexivity.
Qed.

Lemma spawns_app (l1 l2 : list syscall) :
  spawns (l1 ++ l2) = spawns l1 ++ spawns l2.
Proof. unfold spawns. apply flat_map_app. Qed.

Lemma record_attempt_spawns (c : pystr) (w : World) :
  spawns (log (record_attempt c w)) = spawns (log w).
Proof.
  unfold record_attempt, after_record, truncated, refused, emit_call.
  destruct (writable w); [destruct (encodable c)|]; cbn [log];
    rewrite spawns_app; apply app_nil_r.
Qed.

Lemma record_attempt_writable (c : pystr) (w : World) :
  writable (record_attempt c w) = writable w.
Proof.
  unfold record_attempt, after_record, truncated, refused, emit_call.
  destruct (writable w) eqn:Hw; [destruct (encodable c)|]; cbn [writable];
    auto.
Qed.

Lemma run_nextflow_spawns (c : pystr) (w : World) :
  spawns (log (snd (run_nextflow c w))) = spawns (log w).
Proof. rewrite run_nextflow_eq. apply record_attempt_spawns. Qed.

Lemma resume_nextflow_spawns (w : World) :
  spawns (log (snd (resume_nextflow w))) = spawns (log w).
Proof.
  unfold resume_nextflow, bind. rewrite load_eq.
  destruct (nfresume w); simpl.
  - rewrite run_nextflow_spawns. simpl. rewrite spawns_app. simpl. apply app_nil_r.
  - rewrite spawns_app. simpl. apply app_nil_r.
Qed.

(** The text [load] gives is the first line of the file, trimmed. *)
Lemma loaded_first_line (content : pystr) :
  exists line,
    first_line_of content line /\ trimmed_of line (strip (readline content)).
Proof.
  destruct (readline_first_line content) as [line [Hl [E | E]]];
    exists line; split; auto; rewrite E.
  - apply strip_trimmed.
  - rewrite strip_line_feed. apply strip_trimmed.
Qed.

Lemma no_line_end_app (a b : pystr) :
  forallb (fun c => negb (is_line_end c)) (a ++ b)
  = forallb (fun c => negb (is_line_end c)) a
    && forallb (fun c => negb (is_line_end c)) b.
Proof. apply forallb_app. Qed.

Lemma recorded_no_line_end (c : pystr) :
  forallb (fun x => negb (is_line_end x)) c = true ->
  forallb (fun x => negb (is_line_end x)) (recorded c) = true.
Proof.
  intros H. unfold recorded.
  destruct (endswith c (lit "-resume")); [exact H|].
  rewrite no_line_end_app, H. reflexivity.
Qed.

(** What is read back from a record of a one-line command ends with the
    resume indicator. *)
Lemma loaded_recorded_endswith (c : pystr) :
  forallb (fun x => negb (is_line_end x)) c = true ->
  endswith (strip (readline (recorded c))) (lit "-resume") = true.
Proof.
  intros H.
  rewrite (readline_no_line_end _ (recorded_no_line_end _ H)).
  destruct (endswith_inv _ _ (recorded_endswith c)) as [a ->].
  destruct (@strip_keeps_tail a (lit "-resume") 45%N 101%N) as [a' ->];
    try reflexivity.
  apply endswith_app.
Qed.

(** A one-line command that starts with a visible character is read back
    as it was recorded. *)
Lemma loaded_recorded_exact (c : pystr) :
  forallb (fun x => negb (is_line_end x)) c = true ->
  (exists x t, c = x :: t /\ isspace x = false) ->
  strip (readline (recorded c)) = recorded c.
Proof.
  intros H [x [t [-> Hx]]].
  rewrite (readline_no_line_end _ (recorded_no_line_end _ H)).
  apply strip_fixed.
  - unfold recorded. destruct (endswith _ _); simpl; intros d Hd; congruence.
  - destruct (endswith_inv _ _ (recorded_endswith (x :: t))) as [a ->].
    rewrite rev_app_distr. simpl. intros d Hd. inversion Hd. reflexivity.
Qed.

(** What [load] gives of an encodable content is encodable. *)
Lemma encodable_loaded (content : pystr) :
  encodable content = true -> encodable (strip (readline content)) = true.
Proof.
  intros H.
  destruct (loaded_first_line content)
    as [line [[rest [E _]] [l [r [El _]]]]].
  rewrite E, El in H. unfold encodable in *.
  rewrite !forallb_app in H.
  apply andb_true_iff in H as [H _].
  apply andb_true_iff in H as [_ H].
  apply andb_true_iff in H as [H _]. exact H.
Qed.

End ResumeStore.

(** ** The launchers *)

Section Launchers.

Lemma main_run (cl : command_line) (args : Namespace) (w : World) :
  parse_command_line_args cl = Ok args ->
  chosen_subcommand_of args = [VStr (lit "run")] ->
  main cl w = run_nextflow (generate_nextflow_command args) w.
Proof.
  intros Hp Hc. unfold main, bind, lift. rewrite Hp, Hc. reflexivity.
Qed.

Lemma main_resume (cl : command_line) (args : Namespace) (w : World) :
  parse_command_line_args cl = Ok args ->
  chosen_subcommand_of args = [VStr (lit "resume")] ->
  main cl w = resume_nextflow w.
Proof.
  intros Hp Hc. unfold main, bind, lift. rewrite Hp, Hc. reflexivity.
Qed.

Lemma main_other (cl : command_line) (args : Namespace) (v : value) (w : World) :
  parse_command_line_args cl = Ok args ->
  chosen_subcommand_of args = [v] ->
  matches v (lit "run") = false ->
  matches v (lit "resume") = false ->
  main cl w =
  (Raise (SystemExit (inr (lit "The subcommand " ++ py_str v
                           ++ lit " is not yet supported but will be soon!"))),
   w).
Proof.
  intros Hp Hc H1 H2. unfold main, bind, lift. rewrite Hp, Hc. simpl.
  rewrite H1, H2. reflexivity.
Qed.

End Launchers.

(** C1, as the code has it: where the resume file can be written and the
    command encoded, [run_nextflow] returns only on a command that ends
    with the resume indicator; on any other command, here the one
    synthesized for [oneroof run --refseq ref.fasta], it records the
    command and then stops on the [ValueError] that [split] raises for its
    empty separator.  Where the file cannot be opened it stops earlier, on
    the error of [open].  Whatever the child would have done, it is never
    spawned and its exit status is never looked at. *)
Theorem C1_run_nextflow_stops_at_split (w : World) (other : pystr) :
  let c := lit "nextflow run . --refseq ref.fasta" in
  fst (run_nextflow other w)
  = (if writable w then
       if encodable other
       then if endswith other (lit "-resume")
            then Ok tt else Raise empty_separator
       else Raise UnicodeEncodeError
     else Raise OSError)
  /\ synthesized cl_plain = Some c
  /\ endswith c (lit "-resume") = false
  /\ split c (lit "") = Raise empty_separator
  /\ run_nextflow c w
     = (if writable w
        then (Raise empty_separator, after_record (c ++ lit " -resume") w)
        else (Raise OSError, refused w))
  /\ main cl_plain w
     = (if writable w
        then (Raise empty_separator, after_record (c ++ lit " -resume") w)
        else (Raise OSError, refused w))
  /\ spawns (log (snd (main cl_plain w))) = spawns (log w).
Proof.
  intros c.
  assert (Hmain : main cl_plain w = run_nextflow c w).
  { destruct (parse_command_line_args cl_plain) as [args|e] eqn:Hp;
      [|vm_compute in Hp; discriminate].
    rewrite (@main_run cl_plain args w Hp).
    - f_equal. vm_compute in Hp. inversion Hp; subst args.
      vm_compute. reflexivity.
    - vm_compute in Hp. inversion Hp; subst args. vm_compute. reflexivity. }
  assert (Hrec : recorded c = c ++ lit " -resume") by (vm_compute; reflexivity).
  assert (Hend : endswith c (lit "-resume") = false) by (vm_compute; reflexivity).
  assert (Henc : encodable c = true) by (vm_compute; reflexivity).
  assert (Hrun : run_nextflow c w
                 = (if writable w
                    then (Raise empty_separator,
                          after_record (c ++ lit " -resume") w)
                    else (Raise OSError, refused w))).
  { rewrite run_nextflow_eq. unfold record_attempt.
    rewrite Hend, Hrec, Henc. destruct (writable w); reflexivity. }
  split; [rewrite run_nextflow_eq; reflexivity|].
  split; [vm_compute; reflexivity|].
  split; [exact Hend|].
  split; [vm_compute; reflexivity|].
  split; [exact Hrun|].
  split; [rewrite Hmain; exact Hrun|].
  rewrite Hmain. apply run_nextflow_spawns.
Qed.




(** C8: recording the same command twice leaves the resume file as one
    recording leaves it, through [record] alone and through the whole of
    [run_nextflow], whatever the command and the world; the file then
    holds the command once, whatever it held before, where it can be
    written and the command encoded. *)
Theorem C8_record_idempotent (c : pystr) (w : World) :
  nfresume (snd (record c (snd (record c w)))) = nfresume (snd (record c w))
  /\ nfresume (snd (run_nextflow c (snd (run_nextflow c w))))
     = nfresume (snd (run_nextflow c w))
  /\ nfresume (snd (record c w))
     = (if writable w then
          if encodable c then Some (recorded c) else Some []
        else nfresume w).
Proof.
  rewrite !record_eq, !run_nextflow_eq. cbn [snd].
  assert (H : nfresume (record_attempt c w)
              = (if writable w then
                   if encodable c then Some (recorded c) else Some []
                 else nfresume w)).
  { unfold record_attempt.
    destruct (writable w); [destruct (encodable c)|]; reflexivity. }
  assert (H2 : nfresume (record_attempt c (record_attempt c w))
               = nfresume (record_attempt c w)).
  { rewrite H. unfold record_attempt at 1.
    rewrite record_attempt_writable.
    destruct (writable w); [destruct (encodable c)|]; try reflexivity.
    exact H. }
  repeat split; assumption.
Qed.

(** C4: [load] raises the assertion that tells the user to start with
    [oneroof run] when there is no resume file; when there is one it gives
    the first line of its content without the white space around it, and
    it leaves the file as it is. *)
Theorem C4_load (w : World) :
  match nfresume w with
  | None => fst (load w) = Raise missing_prior_run
  | Some content =>
      exists line res,
        first_line_of content line
        /\ fst (load w) = Ok res
        /\ trimmed_of line res
  end
  /\ nfresume (snd (load w)) = nfresume w.
Proof.
  rewrite load_eq. destruct (nfresume w) as [content|] eqn:E; simpl.
  - split; [|reflexivity].
    destruct (loaded_first_line content) as [line [H1 H2]].
    exists line, (strip (readline content)). auto.
  - split; [reflexivity | exact E].
Qed.

(** ** The dispatcher *)

Section Dispatcher.

Lemma parse_subcommand (name found : pystr) (table : list argument)
    (opts : list (pystr * value)) :
  find (fun sp => eqb (fst sp) name) subparsers = Some (found, table) ->
  parse_command_line_args (mkCommandLine (Some name) opts) =
  match parse_options table opts with
  | Ok ns => Ok ((lit "subcommands", VStr name) :: ns)
  | Raise e => Raise e
  end.
Proof.
  intros H. unfold parse_command_line_args, mkCommandLine.
  cbn [help subcommand given].
  rewrite H. reflexivity.
Qed.

Lemma parse_options_no_table (opts : list (pystr * value)) :
  parse_options [] opts =
  match opts with [] => Ok [] | _ :: _ => Raise usage_error end.
Proof. destruct opts; reflexivity. Qed.

Lemma chosen_cons_selector (v : value) (ns : Namespace) :
  chosen_subcommand_of ((lit "subcommands", v) :: ns)
  = v :: chosen_subcommand_of ns.
Proof.
  unfold chosen_subcommand_of. cbn [filter fst].
  rewrite eqb_refl. reflexivity.
Qed.

Lemma chosen_parse_options (table : list argument)
    (opts : list (pystr * value)) (ns : Namespace) :
  forallb (fun a => negb (eqb (dest a) (lit "subcommands"))) table = true ->
  parse_options table opts = Ok ns ->
  chosen_subcommand_of ns = [].
Proof.
  intros Ht. unfold parse_options.
  destruct (_ && _); [|discriminate].
  intros H; inversion H; subst ns; clear H.
  unfold chosen_subcommand_of.
  induction table as [|a table IH]; [reflexivity|].
  cbn [forallb] in Ht. apply andb_true_iff in Ht as [Ha Ht].
  cbn [map filter fst]. apply negb_true_iff in Ha. rewrite Ha.
  apply IH, Ht.
Qed.

Lemma subparsers_tables :
  forallb
    (fun sp =>
       forallb (fun a => negb (eqb (dest a) (lit "subcommands"))) (snd sp))
    subparsers = true.
Proof. vm_compute. reflexivity. Qed.

(** Whatever parses has exactly one attribute named [subcommands]. *)
Lemma chosen_subcommand_single (cl : command_line) :
  match parse_command_line_args cl with
  | Ok args => List.length (chosen_subcommand_of args) = 1
  | Raise _ => True
  end.
Proof.
  destruct cl as [[|] [name|] opts]; unfold parse_command_line_args;
    cbn [help subcommand given]; try exact I; try discriminate.
  - destruct (find _ subparsers) as [[found table]|] eqn:Hf; [|exact I].
    apply find_some in Hf as [Hin _].
    pose proof subparsers_tables as Ht.
    rewrite forallb_forall in Ht. specialize (Ht _ Hin). cbn [snd] in Ht.
    destruct (parse_options table opts) as [ns|e] eqn:Hp; [|exact I].
    rewrite chosen_cons_selector, (chosen_parse_options _ _ Ht Hp).
    reflexivity.
  - destruct opts; [|exact I]. rewrite chosen_cons_selector. reflexivity.
Qed.

Lemma main_stub (name : string) (w : World) :
  find (fun sp => eqb (fst sp) (lit name)) subparsers = Some (lit name, []) ->
  matches (VStr (lit name)) (lit "run") = false ->
  matches (VStr (lit name)) (lit "resume") = false ->
  main (mkCommandLine (Some (lit name)) []) w
  = (Raise (SystemExit (inr (not_yet_supported name))), w).
Proof.
  intros Hf H1 H2.
  rewrite (@main_other _ [(lit "subcommands", VStr (lit name))]
             (VStr (lit name)) w); auto.
  all: try (rewrite (parse_subcommand _ _ Hf); reflexivity).
  all: try (rewrite chosen_cons_selector; reflexivity).
Qed.

Lemma main_stub_options (name : string) (opts : list (pystr * value))
    (w : World) :
  find (fun sp => eqb (fst sp) (lit name)) subparsers = Some (lit name, []) ->
  matches (VStr (lit name)) (lit "run") = false ->
  matches (VStr (lit name)) (lit "resume") = false ->
  snd (main (mkCommandLine (Some (lit name)) opts) w) = w
  /\ (0 <? exit_status (fst (main (mkCommandLine (Some (lit name)) opts) w)))%Z
     = true.
Proof.
  intros Hf H1 H2. destruct opts as [|o opts].
  - rewrite (main_stub _ w Hf H1 H2). split; reflexivity.
  - unfold main, bind, lift.
    rewrite (parse_subcommand _ _ Hf), parse_options_no_table.
    split; reflexivity.
Qed.

End Dispatcher.

(** C9: with [env] or [validate] as the subcommand, [main] ends in
    [sys.exit] with the "not yet supported" message, which gives exit
    status 1; the world is left as it was found: the resume file is not
    touched and no system call, hence no spawn, is issued.  With options
    that these subcommands do not take the exit status is still not zero
    and the world is still untouched. *)
Theorem C9_stub_subcommands (w : World) (opts : list (pystr * value)) :
  main (mkCommandLine (Some (lit "env")) []) w
  = (Raise (SystemExit
              (inr (lit "The subcommand env is not yet supported but will be soon!"))),
     w)
  /\ main (mkCommandLine (Some (lit "validate")) []) w
     = (Raise (SystemExit
                 (inr (lit "The subcommand validate is not yet supported but will be soon!"))),
        w)
  /\ exit_status (fst (main (mkCommandLine (Some (lit "env")) []) w)) = 1%Z
  /\ exit_status (fst (main (mkCommandLine (Some (lit "validate")) []) w)) = 1%Z
  /\ snd (main (mkCommandLine (Some (lit "env")) opts) w) = w
  /\ snd (main (mkCommandLine (Some (lit "validate")) opts) w) = w
  /\ (0 <? exit_status (fst (main (mkCommandLine (Some (lit "env")) opts) w)))%Z
     = true
  /\ (0 <? exit_status
             (fst (main (mkCommandLine (Some (lit "validate")) opts) w)))%Z
     = true.
Proof.
  assert (He : main (mkCommandLine (Some (lit "env")) []) w
               = (Raise (SystemExit (inr (not_yet_supported "env"))), w))
    by (apply main_stub; vm_compute; reflexivity).
  assert (Hv : main (mkCommandLine (Some (lit "validate")) []) w
               = (Raise (SystemExit (inr (not_yet_supported "validate"))), w))
    by (apply main_stub; vm_compute; reflexivity).
  assert (HE : snd (main (mkCommandLine (Some (lit "env")) opts) w) = w
               /\ (0 <? exit_status
                          (fst (main (mkCommandLine (Some (lit "env")) opts) w)))%Z
                  = true)
    by (apply main_stub_options; vm_compute; reflexivity).
  assert (HV : snd (main (mkCommandLine (Some (lit "validate")) opts) w) = w
               /\ (0 <? exit_status
                          (fst (main (mkCommandLine (Some (lit "validate")) opts) w)))%Z
                  = true)
    by (apply main_stub_options; vm_compute; reflexivity).
  destruct HE as [E1 E2], HV as [V1 V2].
  rewrite He, Hv.
  repeat split; auto.
Qed.

(** C10: a command line with no subcommand parses to a namespace whose
    [subcommands] attribute is [None]; the list built for the assertion of
    [main] has one element for every command line that parses, so the
    assertion holds; [main] then falls to the default case and ends in
    [sys.exit] with "The subcommand None is not yet supported but will be
    soon!", exit status 1, the world untouched. *)
Theorem C10_no_subcommand (w : World) (cl : command_line) :
  parse_command_line_args (mkCommandLine None [])
  = Ok [(lit "subcommands", VNone)]
  /\ chosen_subcommand_of [(lit "subcommands", VNone)] = [VNone]
  /\ match parse_command_line_args cl with
     | Ok args => List.length (chosen_subcommand_of args) = 1
     | Raise _ => True
     end
  /\ main (mkCommandLine None []) w
     = (Raise (SystemExit
                 (inr (lit "The subcommand None is not yet supported but will be soon!"))),
        w)
  /\ exit_status (fst (main (mkCommandLine None []) w)) = 1%Z.
Proof.
  assert (Hm : main (mkCommandLine None []) w
               = (Raise (SystemExit (inr (not_yet_supported "None"))), w)).
  { rewrite (@main_other _ [(lit "subcommands", VNone)] VNone w);
      reflexivity. }
  split; [reflexivity|].
  split; [vm_compute; reflexivity|].
  split; [apply chosen_subcommand_single|].
  rewrite Hm. split; reflexivity.
Qed.

(** ** Recording, then loading *)

(** C3 fails where the recorded command has more than one line: the
    command synthesized for [oneroof run --refseq X], with [X] the two
    lines [a] and [b], is recorded whole, and [load] gives back only its
    first line.  It fails as well where the command cannot be encoded:
    with [X] the one byte [0xFF] nothing is stored, the file is left
    empty. *)
Lemma C3_counterexample :
  synthesized cl_two_lines = Some cmd_two_lines
  /\ nfresume (snd (record cmd_two_lines (fresh_world 0)))
     = Some (cmd_two_lines ++ lit " -resume")
  /\ recorded cmd_two_lines = cmd_two_lines ++ lit " -resume"
  /\ fst (load (snd (record cmd_two_lines (fresh_world 0))))
     = Ok (lit "nextflow run . --refseq 'a")
  /\ fst (load (snd (record cmd_two_lines (fresh_world 0))))
     <> Ok (recorded cmd_two_lines)
  /\ synthesized cl_surrogate = Some cmd_surrogate
  /\ fst (record cmd_surrogate (fresh_world 0)) = Raise UnicodeEncodeError
  /\ nfresume (snd (record cmd_surrogate (fresh_world 0))) = Some []
  /\ nfresume (snd (record cmd_surrogate (fresh_world 0)))
     <> Some (cmd_surrogate ++ lit " -resume").
Proof.
  repeat split; try (vm_compute; reflexivity); vm_compute; discriminate.
Qed.

(** C3, amended: where the resume file can be opened for writing,
    recording a command [c] that can be encoded stores [c] with
    [ -resume] appended when [c] does not end with [-resume] and [c]
    itself when it does; a [load] right after gives the first line of
    what was stored, trimmed; when [c] has no line end and starts with a
    visible character this is exactly what was stored. *)
Theorem C3_record_then_load (c : pystr) (w : World) :
  writable w = true ->
  encodable c = true ->
  nfresume (snd (record c w))
  = Some (if endswith c (lit "-resume") then c else c ++ lit " -resume")
  /\ (exists line res,
        first_line_of (recorded c) line
        /\ fst (load (snd (record c w))) = Ok res
        /\ trimmed_of line res)
  /\ (forallb (fun x => negb (is_line_end x)) c = true ->
      (exists x t, c = x :: t /\ isspace x = false) ->
      fst (load (snd (record c w))) = Ok (recorded c)).
Proof.
  intros Hw He.
  rewrite record_ok, load_eq by assumption.
  cbn [snd after_record nfresume fst].
  split; [reflexivity|]. split.
  - destruct (loaded_first_line (recorded c)) as [line [H1 H2]].
    exists line, (strip (readline (recorded c))). auto.
  - intros H1 H2. now rewrite loaded_recorded_exact.
Qed.

Lemma C3_record_then_load_witness :
  fst (load (snd (record (lit "nextflow run . --refseq ref.fasta")
                    (fresh_world 0))))
  = Ok (lit "nextflow run . --refseq ref.fasta -resume").
Proof.
  refine (proj2 (proj2 (@C3_record_then_load
                          (lit "nextflow run . --refseq ref.fasta")
                          (fresh_world 0) _ _)) _ _).
  - reflexivity.
  - vm_compute. reflexivity.
  - vm_compute. reflexivity.
  - exists 110%N, (lit "extflow run . --refseq ref.fasta").
    split; vm_compute; reflexivity.
Defined.

(** C2 fails in its first half where the command cannot be encoded: the
    command synthesized for [oneroof run --refseq X --resume], with [X]
    the one byte [0xFF], ends with [-resume], and [run_nextflow] stops in
    [write] with the file left empty.  It fails in its second half where
    the record has more than one line: the file left by
    [oneroof run --refseq X], with [X] the two lines [a] and [b], is read
    back by [load] as a text that does not end with [-resume], and the
    resume path leaves in the file a text other than the one it found. *)
Lemma C2_counterexample :
  synthesized
    (mkCommandLine (Some (lit "run"))
       [(lit "refseq", VStr [surrogate]); (lit "resume", VBool true)])
  = Some (cmd_surrogate ++ lit " --resume")
  /\ endswith (cmd_surrogate ++ lit " --resume") (lit "-resume") = true
  /\ fst (run_nextflow (cmd_surrogate ++ lit " --resume") (fresh_world 0))
     = Raise UnicodeEncodeError
  /\ nfresume (snd (run_nextflow (cmd_surrogate ++ lit " --resume")
                      (fresh_world 0)))
     = Some []
  /\ nfresume world_two_lines = Some (cmd_two_lines ++ lit " -resume")
  /\ fst (load world_two_lines) = Ok (lit "nextflow run . --refseq 'a")
  /\ endswith (lit "nextflow run . --refseq 'a") (lit "-resume") = false
  /\ nfresume (snd (resume_nextflow world_two_lines))
     = Some (lit "nextflow run . --refseq 'a -resume")
  /\ nfresume (snd (resume_nextflow world_two_lines))
     <> nfresume world_two_lines.
Proof.
  repeat split; try (vm_compute; reflexivity).
  vm_compute. discriminate.
Qed.

(** C2, amended: where the resume file can be opened for writing, on a
    command that ends with [-resume] and can be encoded, [run_nextflow]
    writes exactly that command to the resume file and returns, with no
    spawn.  When the text [load] gives ends with [-resume], the resume
    path returns after writing that text to the file, with no spawn;
    [load] gives such a text whenever the file was recorded from a command
    with no line end. *)
Theorem C2_resume_short_circuit (c : pystr) (w : World) (content : pystr) :
  writable w = true ->
  (endswith c (lit "-resume") = true ->
   encodable c = true ->
   run_nextflow c w = (Ok tt, after_record c w)
   /\ spawns (log (after_record c w)) = spawns (log w))
  /\ (nfresume w = Some content ->
      encodable content = true ->
      endswith (strip (readline content)) (lit "-resume") = true ->
      fst (resume_nextflow w) = Ok tt
      /\ nfresume (snd (resume_nextflow w)) = Some (strip (readline content))
      /\ spawns (log (snd (resume_nextflow w))) = spawns (log w))
  /\ (forallb (fun x => negb (is_line_end x)) c = true ->
      encodable c = true ->
      exists loaded,
        fst (load (snd (record c w))) = Ok loaded
        /\ endswith loaded (lit "-resume") = true).
Proof.
  intros Hw. split; [|split].
  - intros H He. rewrite run_nextflow_ok by assumption.
    unfold recorded. rewrite H. split; [reflexivity|].
    unfold after_record. cbn [log]. rewrite spawns_app. apply app_nil_r.
  - intros Hf He Hend.
    assert (Hl : encodable (strip (readline content)) = true)
      by now apply encodable_loaded.
    unfold resume_nextflow, bind. rewrite load_eq, Hf.
    rewrite run_nextflow_ok by assumption.
    unfold recorded. rewrite Hend. cbn [fst snd after_record nfresume log].
    repeat split.
    rewrite !spawns_app. cbn. now rewrite !app_nil_r.
  - intros H He. rewrite record_ok, load_eq by assumption.
    cbn [snd after_record nfresume fst].
    exists (strip (readline (recorded c))). split; [reflexivity|].
    now apply loaded_recorded_endswith.
Qed.

Lemma C2_resume_short_circuit_witness :
  run_nextflow (lit "nextflow run . -resume") (fresh_world 0)
  = (Ok tt, after_record (lit "nextflow run . -resume") (fresh_world 0))
  /\ fst (resume_nextflow (world_with (lit "nextflow run . -resume"))) = Ok tt
  /\ exists loaded,
       fst (load (snd (record (lit "nextflow run .") (fresh_world 0))))
       = Ok loaded
       /\ endswith loaded (lit "-resume") = true.
Proof.
  pose proof (@C2_resume_short_circuit
                (lit "nextflow run . -resume") (fresh_world 0) [] eq_refl)
    as [H1 _].
  pose proof (@C2_resume_short_circuit
                [] (world_with (lit "nextflow run . -resume"))
                (lit "nextflow run . -resume") eq_refl) as [_ [H3 _]].
  pose proof (@C2_resume_short_circuit
                (lit "nextflow run .") (fresh_world 0) [] eq_refl)
    as [_ [_ H4]].
  split; [apply H1; vm_compute; reflexivity|].
  split; [apply H3; vm_compute; reflexivity|].
  apply H4; vm_compute; reflexivity.
Defined.

(** ** Quoting and reading back *)

Section ShellFacts.

Import Shlex Shell.

Lemma below_128_cases (P : char -> bool) :
  forallb P (map N.of_nat (seq 0 128)) = true ->
  forall c, (c < 128)%N -> P c = true.
Proof.
  intros H c Hc. rewrite forallb_forall in H. apply H.
  apply in_map_iff. exists (N.to_nat c). split; [apply N2Nat.id|].
  apply in_seq. lia.
Qed.

Lemma safe_below_128 (c : char) : is_safe c = true -> (c < 128)%N.
Proof.
  unfold is_safe, is_word. rewrite orb_true_iff. intros [H|H].
  - rewrite !orb_true_iff, !andb_true_iff, !N.leb_le, N.eqb_eq in H. lia.
  - apply existsb_exists in H as [x [Hin Hx]].
    apply N.eqb_eq in Hx; subst x.
    vm_compute in Hin. intuition (subst; reflexivity).
Qed.

(** A safe character is an ordinary character for the shell. *)
Lemma safe_is_ordinary (c : char) :
  is_safe c = true ->
  is_blank c = false /\ N.eqb c SQUOTE = false /\ N.eqb c DQUOTE = false
  /\ N.eqb c BACKSLASH = false /\ is_meta c = false.
Proof.
  intros H.
  pose (P := fun c => implb (is_safe c)
                        (negb (is_blank c) && negb (N.eqb c SQUOTE)
                         && negb (N.eqb c DQUOTE) && negb (N.eqb c BACKSLASH)
                         && negb (is_meta c))).
  assert (HP : P c = true).
  { apply below_128_cases; [vm_compute; reflexivity | now apply safe_below_128]. }
  unfold P in HP. rewrite H in HP. cbn [implb] in HP.
  rewrite !andb_true_iff, !negb_true_iff in HP. tauto.
Qed.

Lemma scan_bare_safe (cur : option pystr) (c : char) (s : pystr) :
  is_safe c = true -> scan Bare cur (c :: s) = scan Bare (push cur c) s.
Proof.
  intros H. destruct (safe_is_ordinary c H) as (H1 & H2 & H3 & H4 & H5).
  cbn [scan]. rewrite H1, H2, H3, H4, H5. reflexivity.
Qed.

Lemma scan_bare_word (w : pystr) (cur : option pystr) (s : pystr) :
  forallb is_safe w = true ->
  scan Bare cur (w ++ s)
  = scan Bare (match w with [] => cur | _ :: _ => Some (word_of cur ++ w) end) s.
Proof.
  revert cur; induction w as [|c w IH]; intros cur H; [reflexivity|].
  cbn [forallb] in H. apply andb_true_iff in H as [Hc Hw].
  cbn [app]. rewrite scan_bare_safe by exact Hc. rewrite IH by exact Hw.
  destruct w; [reflexivity|].
  unfold push. cbn [word_of]. rewrite <- app_assoc. reflexivity.
Qed.

Lemma scan_bare_blank (w : pystr) (s : pystr) :
  scan Bare (Some w) (SPACE :: s) = option_map (cons w) (scan Bare None s).
Proof. reflexivity. Qed.

Lemma replace1_cons (old : char) (new : pystr) (c : char) (s : pystr) :
  replace1 old new (c :: s)
  = (if N.eqb c old then new else [c]) ++ replace1 old new s.
Proof. reflexivity. Qed.

(** Between single quotes, the text [shlex.quote] builds for [s] reads as
    [s]: an escaped single quote closes the quotes, gives the quote
    between double quotes and opens the quotes again. *)
Lemma scan_single_body (s cur rest : pystr) :
  scan Single (Some cur) (replace1 SQUOTE squote_escape s ++ SQUOTE :: rest)
  = scan Bare (Some (cur ++ s)) rest.
Proof.
  revert cur; induction s as [|c s IH]; intros cur.
  - cbn. rewrite app_nil_r. reflexivity.
  - rewrite replace1_cons, <- app_assoc.
    remember (replace1 SQUOTE squote_escape s ++ SQUOTE :: rest) as tail eqn:Ht.
    destruct (N.eqb c SQUOTE) eqn:Hc.
    + apply N.eqb_eq in Hc; subst c.
      change (scan Single (Some cur) (squote_escape ++ tail))
        with (scan Single (Some (cur ++ [SQUOTE])) tail).
      rewrite IH, <- app_assoc. reflexivity.
    + cbn [app scan]. rewrite Hc. unfold push. cbn [word_of].
      rewrite IH, <- app_assoc. reflexivity.
Qed.

(** Reading what [shlex.quote] wrote: the quoted text adds exactly the
    original text to the word being read. *)
Lemma scan_quote (s : pystr) (cur : option pystr) (rest : pystr) :
  scan Bare cur (quote s ++ rest) = scan Bare (Some (word_of cur ++ s)) rest.
Proof.
  unfold quote. destruct s as [|c s].
  - cbn. rewrite app_nil_r. reflexivity.
  - destruct (forallb is_safe (c :: s)) eqn:Hs.
    + now rewrite scan_bare_word.
    + rewrite <- !app_assoc.
      change (scan Bare cur ([SQUOTE] ++
                replace1 SQUOTE squote_escape (c :: s) ++ [SQUOTE] ++ rest))
        with (scan Single (Some (word_of cur))
                (replace1 SQUOTE squote_escape (c :: s) ++ SQUOTE :: rest)).
      apply scan_single_body.
Qed.

(** [shlex.quote] round trip: the quoted text is one word, and it reads
    back as the text that was quoted. *)
Lemma unquote_quote (s : pystr) : unquote (quote s) = Some s.
Proof.
  unfold unquote, words.
  rewrite <- (app_nil_r (quote s)), scan_quote. reflexivity.
Qed.

End ShellFacts.

(** ** The command synthesizer *)

Section Synthesizer.

Import Shlex Shell.

Lemma fold_append {A B} (f : list B -> A -> list B) (g : A -> list B) :
  (forall acc a, f acc a = acc ++ g a) ->
  forall l acc, fold_left f l acc = acc ++ flat_map g l.
Proof.
  intros Hf. induction l as [|a l IH]; intros acc; cbn [fold_left flat_map].
  - now rewrite app_nil_r.
  - rewrite IH, Hf, <- app_assoc. reflexivity.
Qed.

(** The loop of [generate_nextflow_command] adds, for each option in
    turn, the fragments of that option. *)
Lemma generate_fragments (args : Namespace) :
  generate_nextflow_command args
  = lit "nextflow run . "
    ++ join (lit " ") (flat_map fragment_of (options_of args)).
Proof.
  unfold generate_nextflow_command. fold (options_of args).
  rewrite (@fold_append _ _ _ fragment_of).
  - reflexivity.
  - intros acc [arg [|[|]|s|n|r|l]]; cbn; now rewrite ?app_nil_r.
Qed.

Lemma options_of_app (l1 l2 : Namespace) :
  options_of (l1 ++ l2) = options_of l1 ++ options_of l2.
Proof. apply filter_app. Qed.

Lemma options_of_cons (name : pystr) (v : value) (l : Namespace) :
  eqb name (lit "subcommands") = false ->
  options_of ((name, v) :: l) = (name, v) :: options_of l.
Proof. intros H. unfold options_of. cbn [filter fst]. now rewrite H. Qed.

Lemma plain_names_options (l : Namespace) :
  plain_names l = true -> plain_names (options_of l) = true.
Proof.
  unfold plain_names, options_of. rewrite !forallb_forall.
  intros H kv Hin. apply H. apply filter_In in Hin. tauto.
Qed.

Lemma option_map_app_nil {A} (x : option (list A)) :
  option_map (app []) x = x.
Proof. destruct x; reflexivity. Qed.

Lemma option_map_app_cons {A} (pre : list A) (w : A) (x : option (list A)) :
  option_map (app pre) (option_map (cons w) x)
  = option_map (app (pre ++ [w])) x.
Proof. destruct x; cbn; [rewrite <- app_assoc|]; reflexivity. Qed.

Lemma scan_flag (name tail : pystr) :
  forallb is_safe name = true ->
  scan Bare None ((lit "--" ++ name) ++ tail)
  = scan Bare (Some (lit "--" ++ name)) tail.
Proof.
  intros Hn. rewrite scan_bare_word; [reflexivity|].
  rewrite forallb_app, Hn. reflexivity.
Qed.

Lemma scan_flag_value (name s tail : pystr) :
  forallb is_safe name = true ->
  scan Bare None ((lit "--" ++ name ++ lit " " ++ quote s) ++ tail)
  = option_map (app [lit "--" ++ name]) (scan Bare (Some s) tail).
Proof.
  intros Hn.
  replace ((lit "--" ++ name ++ lit " " ++ quote s) ++ tail)
    with ((lit "--" ++ name) ++ SPACE :: quote s ++ tail)
    by (rewrite <- !app_assoc; reflexivity).
  rewrite scan_flag by exact Hn.
  rewrite scan_bare_blank, scan_quote. reflexivity.
Qed.

(** Reading a fragment leaves the reader with the words of its option,
    the last of them still open. *)
Lemma fragment_open (kv : pystr * value) (f : pystr) :
  forallb is_safe (fst kv) = true ->
  fragment_of kv = [f] ->
  exists pre w,
    tokens_of kv = pre ++ [w]
    /\ forall tail,
         scan Bare None (f ++ tail)
         = option_map (app pre) (scan Bare (Some w) tail).
Proof.
  destruct kv as [name v]. unfold fragment_of, tokens_of. cbn [fst snd].
  intros Hn Hf.
  destruct v as [|[|]|s|n|r|l]; try discriminate;
    injection Hf as <-.
  - exists [], (lit "--" ++ name). split; [reflexivity|]. intros tail.
    rewrite option_map_app_nil. exact (@scan_flag name tail Hn).
  - exists [lit "--" ++ name], (py_str (VStr s)). split; [reflexivity|].
    intros tail. exact (@scan_flag_value name (py_str (VStr s)) tail Hn).
  - exists [lit "--" ++ name], (py_str (VInt n)). split; [reflexivity|].
    intros tail. exact (@scan_flag_value name (py_str (VInt n)) tail Hn).
  - exists [lit "--" ++ name], (py_str (VFloat r)). split; [reflexivity|].
    intros tail. exact (@scan_flag_value name (py_str (VFloat r)) tail Hn).
  - exists [lit "--" ++ name], (py_str (VProfiles l)). split; [reflexivity|].
    intros tail. exact (@scan_flag_value name (py_str (VProfiles l)) tail Hn).
Qed.

Lemma fragment_alone (kv : pystr * value) (f : pystr) :
  forallb is_safe (fst kv) = true ->
  fragment_of kv = [f] ->
  scan Bare None f = Some (tokens_of kv).
Proof.
  intros Hn Hf. destruct (fragment_open kv Hn Hf) as (pre & w & -> & H).
  rewrite <- (app_nil_r f), H. reflexivity.
Qed.

Lemma fragment_then (kv : pystr * value) (f rest : pystr) :
  forallb is_safe (fst kv) = true ->
  fragment_of kv = [f] ->
  scan Bare None (f ++ SPACE :: rest)
  = option_map (app (tokens_of kv)) (scan Bare None rest).
Proof.
  intros Hn Hf. destruct (fragment_open kv Hn Hf) as (pre & w & -> & H).
  rewrite H, scan_bare_blank. apply option_map_app_cons.
Qed.

Lemma fragment_of_cases (kv : pystr * value) :
  (fragment_of kv = [] /\ tokens_of kv = [])
  \/ exists f, fragment_of kv = [f].
Proof.
  destruct kv as [name v]. unfold fragment_of, tokens_of. cbn [snd].
  destruct v as [|[|]|s|n|r|l]; eauto.
Qed.

(** The joined fragments of a list of options read as the words of these
    options, in order. *)
Lemma words_joined_fragments (l : Namespace) :
  plain_names l = true ->
  words (join (lit " ") (flat_map fragment_of l))
  = Some (flat_map tokens_of l).
Proof.
  unfold words. induction l as [|kv l IH]; intros Hl; [reflexivity|].
  unfold plain_names in Hl. cbn [forallb] in Hl.
  apply andb_true_iff in Hl as [Hn Hl]. specialize (IH Hl).
  cbn [flat_map].
  destruct (fragment_of_cases kv) as [[-> ->] | [f Hf]]; [exact IH|].
  rewrite Hf. cbn [app].
  destruct (flat_map fragment_of l) as [|q qs] eqn:Hq.
  - cbn [join]. rewrite (fragment_alone kv Hn Hf).
    cbn in IH. injection IH as <-. now rewrite app_nil_r.
  - change (join (lit " ") (f :: q :: qs))
      with (f ++ SPACE :: join (lit " ") (q :: qs)).
    rewrite (fragment_then kv _ Hn Hf), IH. reflexivity.
Qed.

(** The head of the command reads as its three words. *)
Lemma words_header (tail : pystr) :
  words (lit "nextflow run . " ++ tail)
  = option_map (app header_tokens) (words tail).
Proof.
  unfold words.
  change (scan Bare None (lit "nextflow run . " ++ tail))
    with (option_map (cons (lit "nextflow"))
            (option_map (cons (lit "run"))
               (option_map (cons (lit ".")) (scan Bare None tail)))).
  destruct (scan Bare None tail); reflexivity.
Qed.

(** The command synthesized from a namespace reads as the head followed
    by the words of the options. *)
Lemma words_generate (args : Namespace) :
  plain_names args = true ->
  words (generate_nextflow_command args)
  = Some (header_tokens ++ flat_map tokens_of (options_of args)).
Proof.
  intros H. rewrite generate_fragments, words_header.
  rewrite words_joined_fragments by now apply plain_names_options.
  reflexivity.
Qed.

Lemma tokens_head (l : Namespace) (t : pystr) :
  hd_error (flat_map tokens_of l) = Some t -> startswith t (lit "--") = true.
Proof.
  induction l as [|[name v] l IH]; [discriminate|].
  cbn [flat_map]. unfold tokens_of at 1. cbn [fst snd].
  destruct v as [|[|]|s|n|r|x]; cbn [app hd_error]; auto;
    intros H; injection H as <-; exact (startswith_app (lit "--") name).
Qed.

Lemma plain_names_app (l1 l2 : Namespace) :
  plain_names (l1 ++ l2) = plain_names l1 && plain_names l2.
Proof. apply forallb_app. Qed.

End Synthesizer.

Section SynthesizerClaims.

Import Shlex Shell.

Lemma generate_fragments' (args : Namespace) :
  generate_nextflow_command args
  = lit "nextflow run . " ++ join (lit " ") (fragments args).
Proof. apply generate_fragments. Qed.

Lemma words_generate' (args : Namespace) :
  plain_names args = true ->
  words (generate_nextflow_command args) = Some (header_tokens ++ tokens args).
Proof. apply words_generate. Qed.

Lemma fragments_insert (before after : Namespace) (name : pystr) (v : value) :
  eqb name (lit "subcommands") = false ->
  fragments (before ++ (name, v) :: after)
  = fragments before ++ fragment_of (name, v) ++ fragments after.
Proof.
  intros H. unfold fragments.
  rewrite options_of_app, options_of_cons by exact H.
  rewrite flat_map_app. reflexivity.
Qed.

Lemma tokens_insert (before after : Namespace) (name : pystr) (v : value) :
  eqb name (lit "subcommands") = false ->
  tokens (before ++ (name, v) :: after)
  = tokens before ++ tokens_of (name, v) ++ tokens after.
Proof.
  intros H. unfold tokens.
  rewrite options_of_app, options_of_cons by exact H.
  rewrite flat_map_app. reflexivity.
Qed.

Lemma fragments_app (before after : Namespace) :
  fragments (before ++ after) = fragments before ++ fragments after.
Proof. unfold fragments. now rewrite options_of_app, flat_map_app. Qed.

Lemma tokens_app (before after : Namespace) :
  tokens (before ++ after) = tokens before ++ tokens after.
Proof. unfold tokens. now rewrite options_of_app, flat_map_app. Qed.

Lemma plain_names_insert (before after : Namespace) (name : pystr) (v : value) :
  plain_names (before ++ (name, v) :: after)
  = plain_names before && (forallb is_safe name && plain_names after).
Proof. unfold plain_names. rewrite forallb_app. reflexivity. Qed.

End SynthesizerClaims.

(** C6: an option whose value is [True] adds the one fragment [--name],
    which reads as the one word [--name]; the word after it, if any, is the
    [--name] of the next option, not a value.  An option whose value is
    [False] or [None] adds nothing: the command is the one synthesized
    without that option. *)
Theorem C6_boolean_flags (before after : Namespace) (name : pystr) :
  eqb name (lit "subcommands") = false ->
  plain_names (before ++ (name, VBool true) :: after) = true ->
  generate_nextflow_command (before ++ (name, VBool true) :: after)
  = lit "nextflow run . "
    ++ join (lit " ") (fragments before ++ [lit "--" ++ name] ++ fragments after)
  /\ Shell.words
       (generate_nextflow_command (before ++ (name, VBool true) :: after))
     = Some (header_tokens ++ tokens before ++ [lit "--" ++ name] ++ tokens after)
  /\ (forall t, hd_error (tokens after) = Some t ->
                startswith t (lit "--") = true)
  /\ generate_nextflow_command (before ++ (name, VBool false) :: after)
     = generate_nextflow_command (before ++ after)
  /\ generate_nextflow_command (before ++ (name, VNone) :: after)
     = generate_nextflow_command (before ++ after)
  /\ Shell.words (generate_nextflow_command (before ++ after))
     = Some (header_tokens ++ tokens before ++ tokens after).
Proof.
  intros Hname Hplain.
  rewrite !generate_fragments', !fragments_insert by exact Hname.
  rewrite fragments_app.
  split; [reflexivity|]. split; [|split; [|split; [|split]]].
  - change (fragments before ++ [lit "--" ++ name] ++ fragments after)
      with (fragments before ++ fragment_of (name, VBool true) ++ fragments after).
    rewrite <- fragments_insert by exact Hname.
    rewrite <- generate_fragments', words_generate' by exact Hplain.
    rewrite tokens_insert by exact Hname. reflexivity.
  - intros t. apply tokens_head.
  - reflexivity.
  - reflexivity.
  - rewrite <- fragments_app, <- generate_fragments', words_generate'.
    + now rewrite tokens_app.
    + rewrite plain_names_insert in Hplain. rewrite plain_names_app.
      apply andb_true_iff in Hplain as [-> H].
      apply andb_true_iff in H as [_ ->]. reflexivity.
Qed.

Lemma C6_boolean_flags_witness :
  Shell.words
    (generate_nextflow_command
       [(lit "subcommands", VStr (lit "run"));
        (lit "refseq", VStr (lit "ref.fasta"));
        (lit "secondary", VBool true);
        (lit "downsample_to", VInt 200)])
  = Some [lit "nextflow"; lit "run"; lit "."; lit "--refseq"; lit "ref.fasta";
          lit "--secondary"; lit "--downsample_to"; lit "200"].
Proof.
  assert (H1 : eqb (lit "secondary") (lit "subcommands") = false)
    by (vm_compute; reflexivity).
  assert (H2 : plain_names
                 ([(lit "subcommands", VStr (lit "run"));
                   (lit "refseq", VStr (lit "ref.fasta"))]
                  ++ (lit "secondary", VBool true)
                  :: [(lit "downsample_to", VInt 200)]) = true)
    by (vm_compute; reflexivity).
  pose proof (C6_boolean_flags
                [(lit "subcommands", VStr (lit "run"));
                 (lit "refseq", VStr (lit "ref.fasta"))]
                [(lit "downsample_to", VInt 200)]
                (lit "secondary") H1 H2) as [_ [H _]].
  cbn [app] in H. rewrite H. vm_compute. reflexivity.
Defined.

(** C7: an option whose value is neither [None] nor a [bool] adds the one
    fragment made of [--name], a blank and the value as [shlex.quote]
    writes it; the quoted value reads back as [str] of the value, and in
    the whole command the word [--name] is followed by the word [str] of
    the value, whatever blanks, quotes or other characters it holds. *)
Theorem C7_values_round_trip (before after : Namespace) (name : pystr)
    (v : value) :
  is_none v = false ->
  isinstance_bool v = false ->
  eqb name (lit "subcommands") = false ->
  generate_nextflow_command (before ++ (name, v) :: after)
  = lit "nextflow run . "
    ++ join (lit " ")
         (fragments before
          ++ [lit "--" ++ name ++ lit " " ++ Shlex.quote (py_str v)]
          ++ fragments after)
  /\ Shell.unquote (Shlex.quote (py_str v)) = Some (py_str v)
  /\ (plain_names (before ++ (name, v) :: after) = true ->
      Shell.words (generate_nextflow_command (before ++ (name, v) :: after))
      = Some (header_tokens ++ tokens before
              ++ [lit "--" ++ name; py_str v] ++ tokens after)).
Proof.
  intros Hnone Hbool Hname.
  split; [|split].
  - rewrite generate_fragments', fragments_insert by exact Hname.
    destruct v as [|b|s|n|r|l]; try discriminate; reflexivity.
  - apply unquote_quote.
  - intros Hplain.
    rewrite words_generate' by exact Hplain.
    rewrite tokens_insert by exact Hname.
    destruct v as [|b|s|n|r|l]; try discriminate; reflexivity.
Qed.

Lemma C7_values_round_trip_witness :
  Shell.words
    (generate_nextflow_command
       [(lit "subcommands", VStr (lit "run"));
        (lit "refseq", VStr (lit "my ref's $HOME.fasta"));
        (lit "downsample_to", VInt 200)])
  = Some [lit "nextflow"; lit "run"; lit "."; lit "--refseq";
          lit "my ref's $HOME.fasta"; lit "--downsample_to"; lit "200"]
  /\ Shell.unquote (Shlex.quote (lit "my ref's $HOME.fasta"))
     = Some (lit "my ref's $HOME.fasta").
Proof.
  assert (H1 : eqb (lit "refseq") (lit "subcommands") = false)
    by (vm_compute; reflexivity).
  pose proof (@C7_values_round_trip
                [(lit "subcommands", VStr (lit "run"))]
                [(lit "downsample_to", VInt 200)]
                (lit "refseq") (VStr (lit "my ref's $HOME.fasta"))
                eq_refl eq_refl H1) as [_ [H2 H3]].
  split; [|exact H2].
  cbn [app] in H3. rewrite H3; vm_compute; reflexivity.
Defined.

(** ** Every parsed command line *)

Section Parsed.

Lemma subparsers_plain :
  forallb (fun sp => forallb (fun a => forallb Shlex.is_safe (dest a)) (snd sp))
    subparsers = true.
Proof. vm_compute. reflexivity. Qed.

Lemma parse_options_plain (table : list argument)
    (opts : list (pystr * value)) (ns : Namespace) :
  forallb (fun a => forallb Shlex.is_safe (dest a)) table = true ->
  parse_options table opts = Ok ns ->
  plain_names ns = true.
Proof.
  intros Ht. unfold parse_options.
  destruct (_ && _); [|discriminate].
  intros H; inversion H; subst ns; clear H.
  unfold plain_names. rewrite forallb_forall in *.
  intros kv Hin. apply in_map_iff in Hin as [a [<- Ha]].
  cbn [fst]. now apply Ht.
Qed.

(** The names of a parsed namespace need no quoting, so the synthesized
    command of every command line that parses reads as the head followed
    by the words of its options. *)
Lemma words_of_parsed (cl : command_line) :
  match parse_command_line_args cl with
  | Ok args =>
      Shell.words (generate_nextflow_command args)
      = Some (header_tokens ++ tokens args)
  | Raise _ => True
  end.
Proof.
  destruct (parse_command_line_args cl) as [args|e] eqn:Hp; [|exact I].
  apply words_generate'.
  destruct cl as [[|] [name|] opts]; unfold parse_command_line_args in Hp;
    cbn [help subcommand given] in Hp; try discriminate.
  - destruct (find _ subparsers) as [[found table]|] eqn:Hf; [|discriminate].
    apply find_some in Hf as [Hin _].
    pose proof subparsers_plain as Ht.
    rewrite forallb_forall in Ht. specialize (Ht _ Hin). cbn [snd] in Ht.
    destruct (parse_options table opts) as [ns|e] eqn:Ho; [|discriminate].
    inversion Hp; subst args.
    unfold plain_names. cbn [forallb fst].
    apply andb_true_iff. split; [vm_compute; reflexivity|].
    exact (parse_options_plain _ _ Ht Ho).
  - destruct opts; [|discriminate]. inversion Hp. vm_compute. reflexivity.
Qed.

End Parsed.

(** ** Worked cases *)

Example endswith_resume :
  endswith (lit "nextflow run . -resume") (lit "-resume") = true
  /\ endswith (lit "resume") (lit "-resume") = false.
Proof. split; vm_compute; reflexivity. Qed.

Example strip_line :
  strip (lit "  a b " ++ [LF]) = lit "a b".
Proof. vm_compute. reflexivity. Qed.

Example str_of_int_cases :
  str_of_int 200 = lit "200" /\ str_of_int 0 = lit "0"
  /\ str_of_int (-5) = lit "-5".
Proof. repeat split; vm_compute; reflexivity. Qed.

Example py_str_profiles :
  py_str (VProfiles [Docker; Standard]) = lit "['docker', 'standard']".
Proof. vm_compute. reflexivity. Qed.

Example split_on_blank :
  split (lit "nextflow run .") (lit " ")
  = Ok [lit "nextflow"; lit "run"; lit "."].
Proof. vm_compute. reflexivity. Qed.

Example quote_cases :
  Shlex.quote (lit "ref.fasta") = lit "ref.fasta"
  /\ Shlex.quote (lit "my ref.fasta") = lit "'my ref.fasta'"
  /\ Shlex.quote [] = lit "''"
  /\ Shlex.quote (lit "it's")
     = lit "'it'" ++ [DQUOTE; SQUOTE; DQUOTE] ++ lit "'s'".
Proof. repeat split; vm_compute; reflexivity. Qed.

(** The scenario of the specification: [refseq], [secondary] and
    [downsample_to] given. *)
Example synthesized_scenario :
  synthesized
    (mkCommandLine (Some (lit "run"))
       [(lit "refseq", VStr (lit "ref.fasta"));
        (lit "secondary", VBool true);
        (lit "downsample_to", VInt 200)])
  = Some (lit "nextflow run . --refseq ref.fasta --secondary --downsample_to 200").
Proof. vm_compute. reflexivity. Qed.

(** The scenario of the specification: what is recorded and read back. *)
Example record_scenario :
  nfresume (snd (record (lit "nextflow run . --refseq ref.fasta") (fresh_world 0)))
  = Some (lit "nextflow run . --refseq ref.fasta -resume")
  /\ fst (load (snd (record (lit "nextflow run . --refseq ref.fasta")
                       (fresh_world 0))))
     = Ok (lit "nextflow run . --refseq ref.fasta -resume").
Proof. split; vm_compute; reflexivity. Qed.

(** A run without [--refseq] is refused by the parser. *)
Example refseq_required :
  fst (main (mkCommandLine (Some (lit "run")) []) (fresh_world 0))
  = Raise usage_error.
Proof. vm_compute. reflexivity. Qed.

(** * Further properties of the program *)

(** ** The dispatcher, for every command line *)

Section DispatchFacts.

(** What parses is the selector followed by attributes none of which is
    named [subcommands]. *)
Lemma parse_shape (cl : command_line) (args : Namespace) :
  parse_command_line_args cl = Ok args ->
  exists ns,
    args = (lit "subcommands", selector_of cl) :: ns
    /\ chosen_subcommand_of ns = [].
Proof.
  destruct cl as [[|] [name|] opts]; unfold parse_command_line_args, selector_of;
    cbn [help subcommand given]; try discriminate.
  - destruct (find _ subparsers) as [[found table]|] eqn:Hf; [|discriminate].
    apply find_some in Hf as [Hin _].
    pose proof subparsers_tables as Ht.
    rewrite forallb_forall in Ht. specialize (Ht _ Hin). cbn [snd] in Ht.
    destruct (parse_options table opts) as [ns|e] eqn:Hp; [|discriminate].
    intros H; inversion H; subst args. exists ns. split; [reflexivity|].
    exact (chosen_parse_options _ _ Ht Hp).
  - destruct opts; [|discriminate].
    intros H; inversion H; subst args. exists []. split; reflexivity.
Qed.

Lemma parse_error_is_usage (cl : command_line) (e : exn) :
  parse_command_line_args cl = Raise e ->
  e = if help cl then help_exit else usage_error.
Proof.
  destruct cl as [[|] sub opts]; unfold parse_command_line_args;
    cbn [help subcommand given]; [congruence|].
  destruct sub as [name|].
  - destruct (find (fun sp => eqb (fst sp) name) subparsers)
      as [[found table]|]; [|congruence].
    unfold parse_options. destruct (_ && _); congruence.
  - destruct opts; congruence.
Qed.

Lemma main_parsed (cl : command_line) (args : Namespace) (w : World) :
  parse_command_line_args cl = Ok args ->
  main cl w =
  match subcommand cl with
  | None => (Raise (SystemExit (inr (not_yet_supported "None"))), w)
  | Some name =>
      if eqb name (lit "run")
      then run_nextflow (generate_nextflow_command args) w
      else if eqb name (lit "resume")
           then resume_nextflow w
           else (Raise (SystemExit
                          (inr (lit "The subcommand " ++ name
                                ++ lit " is not yet supported but will be soon!"))),
                 w)
  end.
Proof.
  intros Hp. destruct (parse_shape _ Hp) as [ns [Hargs Hns]].
  assert (Hc : chosen_subcommand_of args = [selector_of cl]).
  { rewrite Hargs, chosen_cons_selector, Hns. reflexivity. }
  unfold main, bind, lift. rewrite Hp, Hc.
  unfold selector_of. destruct (subcommand cl) as [name|]; [|reflexivity].
  cbn [List.length Nat.eqb assert_ ret first matches].
  destruct (eqb name (lit "run")); [reflexivity|].
  destruct (eqb name (lit "resume")); reflexivity.
Qed.

Lemma main_unparsed (cl : command_line) (e : exn) (w : World) :
  parse_command_line_args cl = Raise e -> main cl w = (Raise e, w).
Proof. intros Hp. unfold main, bind, lift. now rewrite Hp. Qed.

End DispatchFacts.

(** X2: no command line makes [main] spawn a child process: on [run] and
    on [resume] the only spawn of the program stands behind the [split]
    that raises, everywhere else [main] issues no system call at all. *)
Theorem X2_main_never_spawns (cl : command_line) (w : World) :
  spawns (log (snd (main cl w))) = spawns (log w).
Proof.
  destruct (parse_command_line_args cl) as [args|e] eqn:Hp.
  - rewrite (main_parsed _ w Hp).
    destruct (subcommand cl) as [name|]; [|reflexivity].
    destruct (eqb name (lit "run")); [apply run_nextflow_spawns|].
    destruct (eqb name (lit "resume")); [apply resume_nextflow_spawns|].
    reflexivity.
  - now rewrite (@main_unparsed _ _ w Hp).
Qed.

Section RecordFacts.

Lemma record_attempt_file (c : pystr) (w : World) :
  nfresume (record_attempt c w)
  = (if writable w then
       if encodable c then Some (recorded c) else Some []
     else nfresume w).
Proof.
  unfold record_attempt.
  destruct (writable w); [destruct (encodable c)|]; reflexivity.
Qed.

Lemma resume_nextflow_file (w : World) :
  nfresume (snd (resume_nextflow w))
  = match nfresume w with
    | None => None
    | Some content =>
        if writable w then
          if encodable (strip (readline content))
          then Some (recorded (strip (readline content)))
          else Some []
        else Some content
    end.
Proof.
  unfold resume_nextflow, bind. rewrite load_eq.
  destruct (nfresume w) as [content|] eqn:E.
  - rewrite run_nextflow_eq. cbn [snd]. rewrite record_attempt_file.
    reflexivity.
  - cbn. exact E.
Qed.


End RecordFacts.



(** ** The command synthesizer, for every namespace *)

Section SynthesizerFacts.

Import Shlex Shell.

Lemma startswith_past (a b q : pystr) (c : char) :
  ~ In c q -> startswith (a ++ c :: b) q = startswith a q.
Proof.
  revert a; induction q as [|y q IH]; intros a Hc; [reflexivity|].
  destruct a as [|x a]; cbn [app startswith].
  - destruct (N.eqb c y) eqn:E; [|reflexivity].
    apply N.eqb_eq in E. subst y. exfalso. apply Hc. left; reflexivity.
  - rewrite IH; [reflexivity|]. intros H. apply Hc. right; exact H.
Qed.

(** A suffix without blanks is looked for in the last blank-separated
    piece only. *)
Lemma endswith_past (x f p : pystr) (c : char) :
  ~ In c p -> endswith (x ++ c :: f) p = endswith f p.
Proof.
  intros Hc. unfold endswith.
  rewrite rev_app_distr. cbn [rev]. rewrite <- app_assoc. cbn [app].
  apply startswith_past. intros H. apply Hc. now apply in_rev.
Qed.

Lemma join_last (sep : pystr) (l : list pystr) (f : pystr) :
  join sep (l ++ [f])
  = match l with [] => f | _ :: _ => join sep l ++ sep ++ f end.
Proof.
  induction l as [|a l IH]; [reflexivity|].
  destruct l as [|b l]; [reflexivity|].
  change (join sep ((a :: b :: l) ++ [f]))
    with (a ++ sep ++ join sep ((b :: l) ++ [f])).
  rewrite IH. change (join sep (a :: b :: l)) with (a ++ sep ++ join sep (b :: l)).
  rewrite <- !app_assoc. reflexivity.
Qed.

(** The synthesized command ends as its last fragment ends. *)
Lemma generate_endswith (args : Namespace) (fs : list pystr) (f p : pystr) :
  fragments args = fs ++ [f] ->
  ~ In SPACE p ->
  endswith (generate_nextflow_command args) p = endswith f p.
Proof.
  intros Hf Hp. rewrite generate_fragments', Hf, join_last.
  destruct fs as [|a fs].
  - change (lit "nextflow run . " ++ f)
      with (lit "nextflow run ." ++ SPACE :: f).
    now apply endswith_past.
  - change (lit " " ++ f) with (SPACE :: f).
    rewrite app_assoc. now apply endswith_past.
Qed.

Lemma run_parser :
  find (fun sp => eqb (fst sp) (lit "run")) subparsers
  = Some (lit "run", run_arguments).
Proof. vm_compute. reflexivity. Qed.

Lemma resume_parser :
  find (fun sp => eqb (fst sp) (lit "resume")) subparsers
  = Some (lit "resume", resume_arguments).
Proof. vm_compute. reflexivity. Qed.

Lemma map_firstn_skipn {A B} (n : nat) (f : A -> B) (l : list A) :
  map f l = map f (firstn n l) ++ map f (skipn n l).
Proof. now rewrite <- map_app, firstn_skipn. Qed.

Lemma parse_options_ok (table : list argument) (opts : list (pystr * value))
    (ns : Namespace) :
  parse_options table opts = Ok ns ->
  ns = map (fun a =>
              (dest a,
               match given_value (dest a) opts with
               | Some v => v
               | None => default_of (akind a)
               end))
         table.
Proof.
  unfold parse_options. destruct (_ && _); [|discriminate].
  intros H; injection H as <-. reflexivity.
Qed.

Lemma parsed_plain_names (cl : command_line) (args : Namespace) :
  parse_command_line_args cl = Ok args -> plain_names args = true.
Proof.
  intros Hp. destruct (parse_shape _ Hp) as [ns [-> _]].
  destruct cl as [[|] [name|] opts]; unfold parse_command_line_args in Hp;
    cbn [help subcommand given] in Hp; try discriminate.
  - destruct (find _ subparsers) as [[found table]|] eqn:Hf; [|discriminate].
    apply find_some in Hf as [Hin _].
    pose proof subparsers_plain as Ht.
    rewrite forallb_forall in Ht. specialize (Ht _ Hin). cbn [snd] in Ht.
    destruct (parse_options table opts) as [ns'|e] eqn:Ho; [|discriminate].
    injection Hp as <-.
    unfold plain_names. cbn [forallb fst].
    apply andb_true_iff. split; [vm_compute; reflexivity|].
    exact (parse_options_plain _ _ Ht Ho).
  - destruct opts; [|discriminate]. injection Hp as <-.
    vm_compute. reflexivity.
Qed.

(** The namespace of a run ends with the attributes [resume],
    [snpEff_config] and [profile], in that order. *)
Lemma parse_run_tail (opts : list (pystr * value)) (args : Namespace) :
  parse_command_line_args (run_with opts) = Ok args ->
  exists before,
    args = before
           ++ [(lit "resume",
                match given_value (lit "resume") opts with
                | Some v => v
                | None => VBool false
                end);
               (lit "snpEff_config",
                match given_value (lit "snpEff_config") opts with
                | Some v => v
                | None => VNone
                end);
               (lit "profile",
                match given_value (lit "profile") opts with
                | Some v => v
                | None => VNone
                end)].
Proof.
  unfold run_with. rewrite (parse_subcommand _ opts run_parser).
  destruct (parse_options run_arguments opts) as [ns|e] eqn:Ho; [|discriminate].
  intros H; injection H as <-.
  rewrite (parse_options_ok _ _ Ho).
  rewrite (map_firstn_skipn 31).
  eexists (_ :: _). cbn [app]. reflexivity.
Qed.

Lemma quote_safe (s : pystr) :
  s <> [] -> forallb is_safe s = true -> quote s = s.
Proof.
  intros Hne Hs. unfold quote. destruct s; [congruence|]. now rewrite Hs.
Qed.

Lemma lit_cons (a : ascii) (s : string) :
  lit (String a s) = N_of_ascii a :: lit s.
Proof. reflexivity. Qed.

Lemma digits_safe (d : Decimal.uint) :
  forallb is_safe (lit (NilEmpty.string_of_uint d)) = true.
Proof.
  induction d; cbn [NilEmpty.string_of_uint]; [reflexivity|..];
    rewrite lit_cons; cbn [forallb]; rewrite IHd; reflexivity.
Qed.

Lemma str_of_int_safe (n : Z) :
  str_of_int n <> [] /\ forallb is_safe (str_of_int n) = true.
Proof.
  unfold str_of_int, NilZero.string_of_int.
  assert (Hu : forall d, lit (NilZero.string_of_uint d) <> []
                         /\ forallb is_safe (lit (NilZero.string_of_uint d)) = true).
  { intros d. unfold NilZero.string_of_uint.
    destruct d; cbv beta iota;
      [split; [vm_compute; discriminate | reflexivity] | ..];
      (split; [cbn [NilEmpty.string_of_uint]; rewrite lit_cons; discriminate
              | apply digits_safe]). }
  destruct (Z.to_int n) as [d|d].
  - apply Hu.
  - rewrite lit_cons. split; [discriminate|].
    cbn [forallb]. now rewrite (proj2 (Hu d)).
Qed.

End SynthesizerFacts.

(** X4: a run that asks for [--resume], and gives neither [--snpEff_config]
    nor [-profile], synthesizes a command whose last word is [--resume];
    that command ends with [-resume], so [run_nextflow] takes it for a
    resumed command: where the resume file can be opened for writing and
    the command can be encoded, [main] writes it to the file unchanged and
    returns, exit status 0, with nothing spawned. *)
Theorem X4_resume_flag_short_circuits (opts : list (pystr * value))
    (args : Namespace) (w : World) :
  parse_command_line_args (run_with opts) = Ok args ->
  given_value (lit "resume") opts = Some (VBool true) ->
  given_value (lit "snpEff_config") opts = None ->
  given_value (lit "profile") opts = None ->
  writable w = true ->
  encodable (generate_nextflow_command args) = true ->
  endswith (generate_nextflow_command args) (lit "--resume") = true
  /\ main (run_with opts) w
     = (Ok tt, after_record (generate_nextflow_command args) w)
  /\ exit_status (fst (main (run_with opts) w)) = 0%Z.
Proof.
  intros Hp Hr Hs Hpr Hw He.
  destruct (parse_run_tail _ Hp) as [before Hargs].
  rewrite Hr, Hs, Hpr in Hargs.
  assert (Hf : fragments args = fragments before ++ [lit "--resume"]).
  { rewrite Hargs. unfold fragments. rewrite options_of_app, flat_map_app.
    reflexivity. }
  assert (H2 : endswith (generate_nextflow_command args) (lit "--resume") = true).
  { rewrite (@generate_endswith _ _ _ (lit "--resume") Hf); [reflexivity|].
    vm_compute. intuition discriminate. }
  assert (H1 : endswith (generate_nextflow_command args) (lit "-resume") = true).
  { rewrite (@generate_endswith _ _ _ (lit "-resume") Hf); [reflexivity|].
    vm_compute. intuition discriminate. }
  assert (Hm : main (run_with opts) w
               = (Ok tt, after_record (generate_nextflow_command args) w)).
  { rewrite (main_parsed _ w Hp). cbn [run_with mkCommandLine subcommand].
    rewrite eqb_refl, run_nextflow_ok by assumption.
    unfold recorded. rewrite H1. reflexivity. }
  rewrite Hm. repeat split; assumption.
Qed.

Lemma X4_resume_flag_short_circuits_witness :
  main (run_with [(lit "refseq", VStr (lit "ref.fasta"));
                  (lit "resume", VBool true)]) (fresh_world 0)
  = (Ok tt,
     after_record (lit "nextflow run . --refseq ref.fasta --resume")
       (fresh_world 0)).
Proof.
  destruct (parse_command_line_args
              (run_with [(lit "refseq", VStr (lit "ref.fasta"));
                         (lit "resume", VBool true)]))
    as [args|e] eqn:Hp; [|vm_compute in Hp; discriminate].
  assert (Hr : given_value (lit "resume")
                 [(lit "refseq", VStr (lit "ref.fasta"));
                  (lit "resume", VBool true)] = Some (VBool true))
    by (vm_compute; reflexivity).
  assert (Hs : given_value (lit "snpEff_config")
                 [(lit "refseq", VStr (lit "ref.fasta"));
                  (lit "resume", VBool true)] = None)
    by (vm_compute; reflexivity).
  assert (Hpr : given_value (lit "profile")
                  [(lit "refseq", VStr (lit "ref.fasta"));
                   (lit "resume", VBool true)] = None)
    by (vm_compute; reflexivity).
  assert (Hw : writable (fresh_world 0) = true) by reflexivity.
  assert (He : encodable (generate_nextflow_command args) = true).
  { pose proof Hp as Hq. vm_compute in Hq. injection Hq as <-.
    vm_compute. reflexivity. }
  rewrite (proj1 (proj2 (@X4_resume_flag_short_circuits _ _ (fresh_world 0)
                            Hp Hr Hs Hpr Hw He))).
  vm_compute in Hp. injection Hp as <-. vm_compute. reflexivity.
Defined.

(** X5: for every command line that parses, the attribute names need no
    quoting and the synthesized command reads, under the quoting rules of
    the shell, as [nextflow], [run], [.] followed by the words of the
    attributes in the order of their declaration: [--name] for an
    attribute that is [True], nothing for one that is [False] or [None],
    and [--name] followed by the text of the value for any other one, be
    it given or a default (such as the count 0 of [resume]). *)
Theorem X5_parsed_command_words (cl : command_line) :
  match parse_command_line_args cl with
  | Ok args =>
      plain_names args = true
      /\ Shell.words (generate_nextflow_command args)
         = Some ([lit "nextflow"; lit "run"; lit "."]
                 ++ flat_map tokens_of (options_of args))
  | Raise _ => True
  end.
Proof.
  pose proof (words_of_parsed cl) as H.
  destruct (parse_command_line_args cl) as [args|e] eqn:Hp; [|exact I].
  split; [exact (parsed_plain_names _ Hp) | exact H].
Qed.

(** X6: two namespaces that synthesize the same command stand for the
    same words: the command tells which options were set and what their
    values were. *)
Theorem X6_command_is_unambiguous (a b : Namespace) :
  plain_names a = true ->
  plain_names b = true ->
  generate_nextflow_command a = generate_nextflow_command b ->
  flat_map tokens_of (options_of a) = flat_map tokens_of (options_of b).
Proof.
  intros Ha Hb E.
  pose proof (words_generate' _ Ha) as Wa.
  pose proof (words_generate' _ Hb) as Wb.
  rewrite E, Wb in Wa. injection Wa as Wa.
  symmetry. exact Wa.
Qed.

Lemma X6_command_is_unambiguous_witness :
  flat_map tokens_of
    (options_of [(lit "refseq", VStr (lit "ref.fasta"));
                 (lit "secondary", VBool false)])
  = flat_map tokens_of
      (options_of [(lit "refseq", VStr (lit "ref.fasta"));
                   (lit "kit", VNone)]).
Proof.
  apply X6_command_is_unambiguous; vm_compute; reflexivity.
Defined.

(** X7: a run given [--refseq] and nothing else synthesizes the head of
    the command followed by [--refseq] and the quoted reference, whatever
    the reference is; the flags left unset and the options left out add
    nothing. *)
Theorem X7_only_refseq (r : pystr) :
  synthesized (run_with [(lit "refseq", VStr r)])
  = Some (lit "nextflow run . --refseq " ++ Shlex.quote r).
Proof. vm_compute. reflexivity. Qed.

(** X8: an integer value is never quoted: its fragment is [--name], a
    blank and the decimal text of the integer, as is. *)
Theorem X8_integers_verbatim (name : pystr) (n : Z) :
  Shlex.quote (py_str (VInt n)) = str_of_int n
  /\ fragment_of (name, VInt n) = [lit "--" ++ name ++ lit " " ++ str_of_int n].
Proof.
  destruct (str_of_int_safe n) as [Hne Hs].
  assert (Hq : Shlex.quote (py_str (VInt n)) = str_of_int n)
    by (apply quote_safe; assumption).
  split; [exact Hq|].
  unfold fragment_of. cbn [snd fst]. now rewrite Hq.
Qed.

(** ** Runs and resumptions *)

Section ResumeFacts.

Lemma recorded_fixed (c : pystr) :
  endswith c (lit "-resume") = true -> recorded c = c.
Proof. intros H. unfold recorded. now rewrite H. Qed.

Lemma recorded_idempotent (c : pystr) : recorded (recorded c) = recorded c.
Proof. apply recorded_fixed, recorded_endswith. Qed.

Lemma generate_visible_start (args : Namespace) :
  exists x t, generate_nextflow_command args = x :: t /\ isspace x = false.
Proof.
  rewrite generate_fragments'.
  exists 110%N, (lit "extflow run . " ++ join (lit " ") (fragments args)).
  split; reflexivity.
Qed.

Lemma resume_parses :
  parse_command_line_args (resume_with [])
  = Ok [(lit "subcommands", VStr (lit "resume")); (lit "verbose", VInt 0)].
Proof. vm_compute. reflexivity. Qed.

Lemma main_resume_plain (w : World) :
  main (resume_with []) w = resume_nextflow w.
Proof. rewrite (main_parsed _ w resume_parses). reflexivity. Qed.

Lemma resume_nextflow_eq (w : World) (content : pystr) :
  nfresume w = Some content ->
  resume_nextflow w
  = run_nextflow (strip (readline content))
      (mkWorld (Some content) (writable w) (child w)
         (log w ++ [SysExists; SysOpenR; SysClose])).
Proof.
  intros H. unfold resume_nextflow, bind. rewrite load_eq, H. reflexivity.
Qed.

(** What [load] gives has no line end, and starts with a visible
    character unless it is empty. *)
Lemma loaded_shape (content : pystr) :
  forallb (fun x => negb (is_line_end x)) (strip (readline content)) = true
  /\ (strip (readline content) <> [] ->
      exists x t, strip (readline content) = x :: t /\ isspace x = false).
Proof.
  destruct (loaded_first_line content)
    as [line [[rest [_ [Hline _]]] [l [r [E [_ [_ [Hhd _]]]]]]]].
  split.
  - rewrite E, !forallb_app in Hline.
    apply andb_true_iff in Hline as [_ Hline].
    apply andb_true_iff in Hline as [Hline _]. exact Hline.
  - intros Hne. destruct (strip (readline content)) as [|x t]; [congruence|].
    exists x, t. split; [reflexivity | now apply Hhd].
Qed.

End ResumeFacts.

(** X9: after a run whose synthesized command has no line end and can be
    encoded, where the resume file can be opened for writing, a
    resumption reads the record back whole, finds that it ends with
    [-resume], writes it again and returns: exit status 0, the resume file
    as the run left it, nothing spawned. *)
Theorem X9_run_then_resume (opts : list (pystr * value)) (args : Namespace)
    (w : World) :
  parse_command_line_args (run_with opts) = Ok args ->
  forallb (fun x => negb (is_line_end x)) (generate_nextflow_command args)
  = true ->
  writable w = true ->
  encodable (generate_nextflow_command args) = true ->
  nfresume (snd (main (run_with opts) w))
  = Some (recorded (generate_nextflow_command args))
  /\ fst (load (snd (main (run_with opts) w)))
     = Ok (recorded (generate_nextflow_command args))
  /\ fst (main (resume_with []) (snd (main (run_with opts) w))) = Ok tt
  /\ nfresume (snd (main (resume_with []) (snd (main (run_with opts) w))))
     = nfresume (snd (main (run_with opts) w))
  /\ spawns (log (snd (main (resume_with []) (snd (main (run_with opts) w)))))
     = spawns (log w).
Proof.
  intros Hp Hline Hw He.
  set (c := generate_nextflow_command args) in *.
  assert (Hrun : main (run_with opts) w = run_nextflow c w).
  { rewrite (main_parsed _ w Hp). cbn [run_with mkCommandLine subcommand].
    now rewrite eqb_refl. }
  rewrite Hrun, run_nextflow_ok by assumption. cbn [snd].
  assert (Hload : strip (readline (recorded c)) = recorded c).
  { apply loaded_recorded_exact; [exact Hline|].
    apply generate_visible_start. }
  assert (Her : encodable (recorded c) = true)
    by now rewrite encodable_recorded.
  rewrite main_resume_plain.
  rewrite (@resume_nextflow_eq (after_record (recorded c) w) (recorded c) eq_refl).
  rewrite load_eq. cbn [after_record nfresume fst].
  rewrite Hload, run_nextflow_ok by assumption.
  rewrite recorded_endswith, recorded_idempotent.
  cbn [fst snd after_record nfresume log child].
  repeat split.
  rewrite !spawns_app. cbn. now rewrite !app_nil_r.
Qed.

Lemma X9_run_then_resume_witness :
  fst (main (resume_with []) (snd (main cl_plain (fresh_world 0)))) = Ok tt
  /\ nfresume (snd (main (resume_with []) (snd (main cl_plain (fresh_world 0)))))
     = Some (lit "nextflow run . --refseq ref.fasta -resume").
Proof.
  destruct (parse_command_line_args cl_plain) as [args|e] eqn:Hp;
    [|vm_compute in Hp; discriminate].
  assert (Hline : forallb (fun x => negb (is_line_end x))
                    (generate_nextflow_command args) = true).
  { vm_compute in Hp. injection Hp as <-. vm_compute. reflexivity. }
  assert (He : encodable (generate_nextflow_command args) = true).
  { vm_compute in Hp. injection Hp as <-. vm_compute. reflexivity. }
  pose proof (@X9_run_then_resume _ args (fresh_world 0) Hp Hline eq_refl He)
    as [H1 [_ [H3 [H4 _]]]].
  change (run_with [(lit "refseq", VStr (lit "ref.fasta"))]) with cl_plain
    in *.
  split; [exact H3|]. rewrite H4, H1.
  vm_compute in Hp. injection Hp as <-. vm_compute. reflexivity.
Defined.

(** X10: resuming twice leaves the resume file as resuming once leaves
    it, whenever the first line of the file is not blank; where the file
    can be opened for writing, that is the first line, trimmed, with
    [ -resume] appended if it was missing.  (What a file holds was decoded
    from UTF-8, so it can be encoded.) *)
Theorem X10_resume_idempotent (w : World) (content : pystr) :
  nfresume w = Some content ->
  strip (readline content) <> [] ->
  encodable content = true ->
  (writable w = true ->
   nfresume (snd (resume_nextflow w))
   = Some (recorded (strip (readline content))))
  /\ nfresume (snd (resume_nextflow (snd (resume_nextflow w))))
     = nfresume (snd (resume_nextflow w)).
Proof.
  intros Hf Hne He.
  destruct (loaded_shape content) as [Hline Hvis]. specialize (Hvis Hne).
  assert (Hl : encodable (strip (readline content)) = true)
    by now apply encodable_loaded.
  assert (Hw' : writable (snd (resume_nextflow w)) = writable w).
  { unfold resume_nextflow, bind. rewrite load_eq, Hf, run_nextflow_eq.
    cbn [snd]. now rewrite record_attempt_writable. }
  assert (H1 : nfresume (snd (resume_nextflow w))
               = if writable w
                 then Some (recorded (strip (readline content)))
                 else Some content).
  { rewrite resume_nextflow_file, Hf, Hl. reflexivity. }
  split; [intros Hw; now rewrite H1, Hw|].
  rewrite (resume_nextflow_file (snd (resume_nextflow w))), H1, Hw'.
  destruct (writable w); [|reflexivity].
  rewrite (loaded_recorded_exact Hline Hvis), encodable_recorded, Hl.
  now rewrite recorded_idempotent.
Qed.

Lemma X10_resume_idempotent_witness :
  nfresume
    (snd (resume_nextflow
            (snd (resume_nextflow
                    (world_with (lit "  nextflow run ." ++ [LF] ++ lit "x"))))))
  = Some (lit "nextflow run . -resume").
Proof.
  destruct (@X10_resume_idempotent
              (world_with (lit "  nextflow run ." ++ [LF] ++ lit "x"))
              (lit "  nextflow run ." ++ [LF] ++ lit "x") eq_refl) as [H1 H2].
  - vm_compute. discriminate.
  - vm_compute. reflexivity.
  - rewrite H2, H1 by reflexivity. vm_compute. reflexivity.
Defined.

(** A blank resume file is the case left out: the first resumption leaves
    [ -resume] in it, the second one [-resume]. *)
Example resume_blank_file :
  nfresume (snd (resume_nextflow (world_with [])))
  = Some (lit " -resume")
  /\ nfresume (snd (resume_nextflow (snd (resume_nextflow (world_with [])))))
     = Some (lit "-resume").
Proof. split; vm_compute; reflexivity. Qed.

(** X11: the exit status of [main], for every command line and world: 0
    when help is asked for; 2 when the command line is not accepted; for
    a run, 0 when the resume file can be opened for writing and the
    synthesized command can be encoded and ends with [-resume], and 1
    otherwise; for a resumption, 1 when there is no resume file, else 0
    when the file can be opened for writing and its first line, trimmed,
    can be encoded and ends with [-resume], and 1 otherwise; 1 for no
    subcommand and for any other one. *)
Theorem X11_exit_status (cl : command_line) (w : World) :
  exit_status (fst (main cl w)) =
  if help cl then 0%Z
  else
    match parse_command_line_args cl with
    | Raise _ => 2%Z
    | Ok args =>
        match subcommand cl with
        | None => 1%Z
        | Some name =>
            if eqb name (lit "run") then
              if writable w
                 && encodable (generate_nextflow_command args)
                 && endswith (generate_nextflow_command args) (lit "-resume")
              then 0%Z else 1%Z
            else if eqb name (lit "resume") then
              match nfresume w with
              | None => 1%Z
              | Some content =>
                  if writable w
                     && encodable (strip (readline content))
                     && endswith (strip (readline content)) (lit "-resume")
                  then 0%Z else 1%Z
              end
            else 1%Z
        end
    end.
Proof.
  destruct (parse_command_line_args cl) as [args|e] eqn:Hp.
  - assert (Hh : help cl = false).
    { unfold parse_command_line_args in Hp.
      destruct (help cl); [discriminate | reflexivity]. }
    rewrite Hh, (main_parsed _ w Hp).
    destruct (subcommand cl) as [name|]; [|reflexivity].
    destruct (eqb name (lit "run")).
    { rewrite run_nextflow_eq. cbn [fst].
      destruct (writable w), (encodable _), (endswith _ _); reflexivity. }
    destruct (eqb name (lit "resume")); [|reflexivity].
    destruct (nfresume w) as [content|] eqn:Hf.
    + rewrite (resume_nextflow_eq _ Hf), run_nextflow_eq. cbn [fst writable].
      destruct (writable w), (encodable _), (endswith _ _); reflexivity.
    + unfold resume_nextflow, bind. rewrite load_eq, Hf. reflexivity.
  - rewrite (@main_unparsed _ _ w Hp), (parse_error_is_usage _ Hp).
    destruct (help cl); reflexivity.
Qed.

(** ** The order of the options on the command line *)

Section OptionOrder.








End OptionOrder.




(** ** The words of the resume record *)

Section RecordWords.

Import Shell.

Lemma option_map_app_cons' {A} (w : A) (ts : list A) (x : option (list A)) :
  option_map (cons w) (option_map (app ts) x) = option_map (app (w :: ts)) x.
Proof. destruct x; reflexivity. Qed.

Lemma emit_some (cur : option pystr) (x : option (list pystr))
    (ts : list pystr) :
  emit cur x = Some ts ->
  exists ts', x = Some ts'
              /\ ts = match cur with None => ts' | Some w => w :: ts' end.
Proof.
  destruct cur as [w|]; cbn [emit].
  - destruct x as [ts'|]; cbn; [|discriminate].
    intros H; injection H as <-. eauto.
  - intros ->. eauto.
Qed.

Lemma emit_option_map (cur : option pystr) (ts' : list pystr)
    (y : option (list pystr)) :
  emit cur (option_map (app ts') y)
  = option_map (app match cur with None => ts' | Some w => w :: ts' end) y.
Proof. destruct cur; cbn [emit]; [apply option_map_app_cons'|reflexivity]. Qed.

(** A text that reads as some words, followed by a blank and more text,
    reads as those words followed by the words of the rest. *)
Lemma scan_then_blank (rest : pystr) (n : nat) :
  forall (c : pystr) (st : qstate) (cur : option pystr) (ts : list pystr),
    List.length c <= n ->
    scan st cur c = Some ts ->
    scan st cur (c ++ SPACE :: rest)
    = option_map (app ts) (scan Bare None rest).
Proof.
  induction n as [|n IH]; intros c st cur ts Hlen H.
  - destruct c; [|cbn in Hlen; lia].
    destruct st; cbn [scan] in H; try discriminate.
    cbn [app]. change (scan Bare cur (SPACE :: rest))
      with (emit cur (scan Bare None rest)).
    destruct cur as [w|]; cbn [emit] in *; injection H as <-;
      destruct (scan Bare None rest); reflexivity.
  - destruct c as [|x c].
    { apply (IH [] st cur ts); [cbn; lia | exact H]. }
    cbn [List.length] in Hlen. cbn [app]. cbn [scan] in *.
    destruct st.
    + destruct (is_blank x).
      { apply emit_some in H as [ts' [E ->]].
        rewrite (IH c Bare None ts' ltac:(lia) E). apply emit_option_map. }
      destruct (N.eqb x SQUOTE); [apply IH; [lia | exact H]|].
      destruct (N.eqb x DQUOTE); [apply IH; [lia | exact H]|].
      destruct (N.eqb x BACKSLASH).
      { destruct c as [|d c]; [discriminate|]. cbn [app].
        cbn [List.length] in Hlen.
        destruct (N.eqb d LF); apply IH; try lia; exact H. }
      destruct (is_meta x); [discriminate|].
      apply IH; [lia | exact H].
    + destruct (N.eqb x SQUOTE); apply IH; try lia; exact H.
    + destruct (N.eqb x DQUOTE); [apply IH; [lia | exact H]|].
      destruct (N.eqb x BACKSLASH).
      { destruct c as [|d c]; [discriminate|]. cbn [app].
        cbn [List.length] in Hlen.
        destruct (is_dq_escapable d); [apply IH; [lia | exact H]|].
        destruct (N.eqb d LF); apply IH; try lia; exact H. }
      destruct (existsb _ _); [discriminate|].
      apply IH; [lia | exact H].
Qed.

Lemma words_then_blank (c rest : pystr) (ts : list pystr) :
  words c = Some ts ->
  words (c ++ SPACE :: rest) = option_map (app ts) (words rest).
Proof. intros H. exact (@scan_then_blank rest _ c Bare None ts (le_n _) H). Qed.

End RecordWords.

(** X13: recording keeps the words of a command: where the resume file
    can be opened for writing, when a command that can be encoded reads as
    some words, what is recorded for it reads as the same words, followed
    by the word [-resume] unless the command ended with [-resume]
    already. *)
Theorem X13_record_keeps_words (c : pystr) (ts : list pystr) (w : World) :
  writable w = true ->
  encodable c = true ->
  Shell.words c = Some ts ->
  exists stored,
    nfresume (snd (record c w)) = Some stored
    /\ Shell.words stored
       = Some (if endswith c (lit "-resume") then ts
               else ts ++ [lit "-resume"]).
Proof.
  intros Hw He H. rewrite record_ok by assumption.
  exists (recorded c). split; [reflexivity|].
  unfold recorded. destruct (endswith c (lit "-resume")); [exact H|].
  change (lit " -resume") with (SPACE :: lit "-resume").
  rewrite (@words_then_blank c (lit "-resume") ts H). reflexivity.
Qed.

Lemma X13_record_keeps_words_witness :
  exists stored,
    nfresume (snd (record (lit "nextflow run . --refseq 'my ref.fasta'")
                     (fresh_world 0))) = Some stored
    /\ Shell.words stored
       = Some [lit "nextflow"; lit "run"; lit "."; lit "--refseq";
               lit "my ref.fasta"; lit "-resume"].
Proof.
  destruct (@X13_record_keeps_words
              (lit "nextflow run . --refseq 'my ref.fasta'")
              [lit "nextflow"; lit "run"; lit "."; lit "--refseq";
               lit "my ref.fasta"]
              (fresh_world 0)) as [stored [H1 H2]].
  - reflexivity.
  - vm_compute. reflexivity.
  - vm_compute. reflexivity.
  - exists stored. split; [exact H1|]. rewrite H2. vm_compute. reflexivity.
Defined.

(** Asking for help ends [main] at once, exit status 0, nothing touched. *)
Example help_exits :
  main (mkArgv true (Some (lit "run")) []) (fresh_world 0)
  = (Raise help_exit, fresh_world 0)
  /\ exit_status (Raise help_exit) = 0%Z.
Proof. split; vm_compute; reflexivity. Qed.
